(** * GameChanger: the GitHub CLI gateway, the status endpoint and the MCP
    settings store, embedded in Rocq.

    Sources embedded here:
    - [app/routes/api.github-cli-exec.ts]   (module [Exec])
    - the status route, [part_000]          (module [Status])
    - [app/lib/stores/mcp.ts]               (module [McpStore])
    - [app/components/@settings/tabs/github/GitHubCLIConfig.tsx]
                                            (module [GitHubCLIConfig])

    JavaScript strings are modelled by [string].  Case mapping and white
    space are the ASCII ones, which is what [toLowerCase], [trim] and [\s]
    do on text in the ASCII range; the properties in which they decide the
    outcome (the validator's verdict, the version token, the loader's
    version) are stated for such text ([Js.isAscii]). *)

From Stdlib Require Import ZArith Ascii Bool Lia DecimalFacts DecimalPos DecimalZ.
From stdpp Require Import base option list gmap strings pretty.

(** ** The JavaScript fragment the sources rely on *)
Module Js.

(** The double quote character, code 34. *)
Definition dquote : ascii := "034"%char.

(** [`"${s}"`] *)
Definition quoted (s : string) : string := String dquote (s +:+ String dquote "").

Definition isUpper (c : ascii) : bool :=
  (65 <=? nat_of_ascii c)%nat && (nat_of_ascii c <=? 90)%nat.

Definition toLowerCaseChar (c : ascii) : ascii :=
  if isUpper c then ascii_of_nat (nat_of_ascii c + 32) else c.

(** [String.prototype.toLowerCase] on text in the ASCII range: the letters A
    to Z are lowered and nothing else changes. *)
Fixpoint toLowerCase (s : string) : string :=
  match s with
  | EmptyString => EmptyString
  | String c r => String (toLowerCaseChar c) (toLowerCase r)
  end.

(** [s.startsWith(p)] *)
Fixpoint startsWith (s p : string) {struct p} : bool :=
  match p, s with
  | EmptyString, _ => true
  | String _ _, EmptyString => false
  | String b p', String a s' => if decide (a = b) then startsWith s' p' else false
  end.

(** What is left of [s] after its prefix [p], when [s] starts with [p]. *)
Fixpoint stripPrefix (p s : string) {struct p} : option string :=
  match p, s with
  | EmptyString, _ => Some s
  | String _ _, EmptyString => None
  | String b p', String a s' => if decide (a = b) then stripPrefix p' s' else None
  end.

(** [l.join(sep)] on an array of strings *)
Fixpoint join (sep : string) (l : list string) : string :=
  match l with
  | [] => ""
  | [x] => x
  | x :: xs => x +:+ sep +:+ join sep xs
  end.

(** White space and line terminators in the ASCII range: what [\s] matches and
    what [trim] strips. *)
Definition isWhiteSpace (c : ascii) : bool :=
  match c with
  | "009" | "010" | "011" | "012" | "013" | " " => true
  | _ => false
  end%char.

Fixpoint trimStart (s : string) : string :=
  match s with
  | EmptyString => EmptyString
  | String c r => if isWhiteSpace c then trimStart r else s
  end.

Fixpoint trimEnd (s : string) : string :=
  match s with
  | EmptyString => EmptyString
  | String c r =>
      match trimEnd r with
      | EmptyString => if isWhiteSpace c then EmptyString else String c EmptyString
      | r' => String c r'
      end
  end.

(** [String.prototype.trim] *)
Definition trim (s : string) : string := trimEnd (trimStart s).

(** Text in the ASCII range, every code below 128.  On such text
    [toLowerCase] changes the letters A to Z only, and the white space of
    [trim] and [\s] is the six characters of [isWhiteSpace]; outside it
    JavaScript knows more letters and more white space than this model. *)
Definition isAsciiChar (c : ascii) : bool := (nat_of_ascii c <? 128)%nat.

Fixpoint isAscii (s : string) : bool :=
  match s with
  | EmptyString => true
  | String c r => isAsciiChar c && isAscii r
  end.

(** Outcome of an expression that may throw: a value, or the message of the
    thrown error. *)
Inductive Completion (A : Type) : Type :=
  | Normal (a : A)
  | Throw (message : string).
Global Arguments Normal {A} a.
Global Arguments Throw {A} message.

(** Values produced by [JSON.parse].  Numbers are the integer ones. *)
#[warnings="-register-all"]
Inductive json : Type :=
  | JNull
  | JBool (b : bool)
  | JNum (n : Z)
  | JStr (s : string)
  | JArr (l : list json)
  | JObj (members : list (string * json)).

(** A JavaScript value read from a property: [None] is [undefined]. *)
Definition value : Type := option json.

Fixpoint lookup_member (k : string) (l : list (string * json)) : value :=
  match l with
  | [] => None
  | (k', v) :: r => if decide (k' = k) then Some v else lookup_member k r
  end.

(** [v.k] for the data properties the sources read ([login], [name], [email],
    [mcpConfig]): reading a property of [null] throws a TypeError, an object
    yields its member, any other value has no such property. *)
Definition get_prop (v : json) (k : string) : Completion value :=
  match v with
  | JNull => Throw ("Cannot read properties of null (reading '" +:+ k +:+ "')")
  | JObj l => Normal (lookup_member k l)
  | _ => Normal None
  end.

(** ToBoolean *)
Definition truthy (v : value) : bool :=
  match v with
  | None => false
  | Some JNull => false
  | Some (JBool b) => b
  | Some (JNum n) => negb (n =? 0)%Z
  | Some (JStr s) => match s with EmptyString => false | _ => true end
  | Some (JArr _) | Some (JObj _) => true
  end.

(** [a || b] *)
Definition or_else (a b : value) : value := if truthy a then a else b.

(** [s || d] for an optional string [s] and a string [d] *)
Definition or_string (s : option string) (d : string) : string :=
  match s with
  | Some (String c r) => String c r
  | _ => d
  end.

(** [s.includes(sub)] *)
Fixpoint includes (s sub : string) : bool :=
  if startsWith s sub then true
  else match s with
       | EmptyString => false
       | String _ r => includes r sub
       end.

(** [s.replace(pat, rep)] for a string pattern and a replacement without
    [$] patterns: the first occurrence is replaced. *)
Fixpoint replace (pat rep s : string) : string :=
  match stripPrefix pat s with
  | Some rest => rep +:+ rest
  | None =>
      match s with
      | EmptyString => EmptyString
      | String c r => String c (replace pat rep r)
      end
  end.

End Js.

Import Js.

(** ** [JSON.stringify] and [JSON.parse]

    The serializer follows ECMAScript's [SerializeJSONProperty] without
    indentation; it writes in front of a continuation [k].  The parser is a
    recursive descent over the JSON grammar.  Both cover the values of type
    [json]: numerals with a fraction or an exponent, and [\u] escapes above
    code 255, are outside the model and the parser gives [None] on them. *)
Module Json.

Definition hexDigit (n : nat) : ascii :=
  nth n ["0"; "1"; "2"; "3"; "4"; "5"; "6"; "7"; "8"; "9";
         "a"; "b"; "c"; "d"; "e"; "f"]%char "0"%char.

(** [QuoteJSONString], one character. *)
Definition write_char (c : ascii) (k : string) : string :=
  match c with
  | "034" => String "\" (String dquote k)
  | "\" => String "\" (String "\" k)
  | "008" => String "\" (String "b" k)
  | "012" => String "\" (String "f" k)
  | "010" => String "\" (String "n" k)
  | "013" => String "\" (String "r" k)
  | "009" => String "\" (String "t" k)
  | _ =>
      let n := nat_of_ascii c in
      if (n <? 32)%nat
      then String "\" (String "u" (String "0" (String "0"
             (String (hexDigit (n / 16)) (String (hexDigit (n mod 16)) k)))))
      else String c k
  end%char.

Fixpoint write_string_body (s : string) (k : string) : string :=
  match s with
  | EmptyString => String dquote k
  | String c r => write_char c (write_string_body r k)
  end.

Definition write_string (s : string) (k : string) : string :=
  String dquote (write_string_body s k).

Fixpoint write_uint (u : Decimal.uint) (k : string) : string :=
  match u with
  | Decimal.Nil => k
  | Decimal.D0 u => String "0" (write_uint u k)
  | Decimal.D1 u => String "1" (write_uint u k)
  | Decimal.D2 u => String "2" (write_uint u k)
  | Decimal.D3 u => String "3" (write_uint u k)
  | Decimal.D4 u => String "4" (write_uint u k)
  | Decimal.D5 u => String "5" (write_uint u k)
  | Decimal.D6 u => String "6" (write_uint u k)
  | Decimal.D7 u => String "7" (write_uint u k)
  | Decimal.D8 u => String "8" (write_uint u k)
  | Decimal.D9 u => String "9" (write_uint u k)
  end.

(** [Number::toString] on an integer: plain decimal digits, which is what
    JavaScript prints below 10^21 (from there on it prints an exponent, which
    this printer does not, and which [read_number] does not read). *)
Definition write_number (n : Z) (k : string) : string :=
  match Z.to_int n with
  | Decimal.Pos u => write_uint u k
  | Decimal.Neg u => String "-" (write_uint u k)
  end.

(** Items separated by commas. *)
Definition write_seq {A : Type} (w : A → string → string) : list A → string → string :=
  fix go (l : list A) (k : string) : string :=
    match l with
    | [] => k
    | [x] => w x k
    | x :: xs => w x (String "," (go xs k))
    end.

Fixpoint write_value (v : json) (k : string) : string :=
  match v with
  | JNull => String "n" (String "u" (String "l" (String "l" k)))
  | JBool true => String "t" (String "r" (String "u" (String "e" k)))
  | JBool false => String "f" (String "a" (String "l" (String "s" (String "e" k))))
  | JNum n => write_number n k
  | JStr s => write_string s k
  | JArr l => String "[" (write_seq write_value l (String "]" k))
  | JObj m =>
      String "{"
        (write_seq (λ (e : string * json) k',
                      write_string (fst e) (String ":" (write_value (snd e) k')))
                   m (String "}" k))
  end.

(** [JSON.stringify(v)] *)
Definition stringify (v : json) : string := write_value v "".

(** [JSON.stringify(v)] for a value that may be [undefined]. *)
Definition stringify_value (v : value) : option string := stringify <$> v.

(** JSON white space: tab, line feed, carriage return, space. *)
Definition isJsonSpace (c : ascii) : bool :=
  match c with
  | "009" | "010" | "013" | " " => true
  | _ => false
  end%char.

Fixpoint skip_ws (s : string) : string :=
  match s with
  | EmptyString => EmptyString
  | String c r => if isJsonSpace c then skip_ws r else s
  end.

Definition hexValue (c : ascii) : option nat :=
  let n := nat_of_ascii c in
  if (48 <=? n)%nat && (n <=? 57)%nat then Some (n - 48)
  else if (97 <=? n)%nat && (n <=? 102)%nat then Some (n - 87)
  else if (65 <=? n)%nat && (n <=? 70)%nat then Some (n - 55)
  else None.

(** The characters of a string literal after its opening quote, up to and
    including the closing quote. *)
Fixpoint read_string_body (s : string) : option (string * string) :=
  match s with
  | EmptyString => None
  | String "034" r => Some (EmptyString, r)
  | String "\" (String e r) =>
      let cons (c : ascii) (t : string) :=
        match read_string_body t with
        | Some (str, rest) => Some (String c str, rest)
        | None => None
        end in
      match e with
      | "034" => cons "034"%char r
      | "\" => cons "\"%char r
      | "/" => cons "/"%char r
      | "b" => cons "008"%char r
      | "f" => cons "012"%char r
      | "n" => cons "010"%char r
      | "r" => cons "013"%char r
      | "t" => cons "009"%char r
      | "u" =>
          match r with
          | String h1 (String h2 (String h3 (String h4 r'))) =>
              match hexValue h1, hexValue h2, hexValue h3, hexValue h4 with
              | Some 0, Some 0, Some a, Some b => cons (ascii_of_nat (16 * a + b)) r'
              | _, _, _, _ => None
              end
          | _ => None
          end
      | _ => None
      end
  | String "\" EmptyString => None
  | String c r =>
      if (nat_of_ascii c <? 32)%nat then None
      else match read_string_body r with
           | Some (str, rest) => Some (String c str, rest)
           | None => None
           end
  end%char.

(** The longest run of decimal digits. *)
Fixpoint read_uint (s : string) : Decimal.uint * string :=
  match s with
  | EmptyString => (Decimal.Nil, EmptyString)
  | String c r =>
      let digit (d : Decimal.uint → Decimal.uint) :=
        let '(u, rest) := read_uint r in (d u, rest) in
      match c with
      | "0" => digit Decimal.D0
      | "1" => digit Decimal.D1
      | "2" => digit Decimal.D2
      | "3" => digit Decimal.D3
      | "4" => digit Decimal.D4
      | "5" => digit Decimal.D5
      | "6" => digit Decimal.D6
      | "7" => digit Decimal.D7
      | "8" => digit Decimal.D8
      | "9" => digit Decimal.D9
      | _ => (Decimal.Nil, s)
      end
  end%char.

(** What may follow an integer numeral for it to be the whole number. *)
Definition endsNumber (s : string) : bool :=
  match s with
  | String "." _ | String "e" _ | String "E" _ => false
  | _ => true
  end%char.

(** The grammar of the integer part: [0], or a non-zero digit and more digits. *)
Definition integerPart (u : Decimal.uint) : bool :=
  match u with
  | Decimal.Nil => false
  | Decimal.D0 Decimal.Nil => true
  | Decimal.D0 _ => false
  | _ => true
  end.

(** An integer numeral. *)
Definition read_number (negative : bool) (s : string) : option (json * string) :=
  let '(u, rest) := read_uint s in
  if integerPart u then
    if endsNumber rest
    then Some (JNum (Z.of_int (if negative then Decimal.Neg u else Decimal.Pos u)), rest)
    else None
  else None.

Definition expect (lit : string) (v : json) (s : string) : option (json * string) :=
  match stripPrefix lit s with
  | Some rest => Some (v, rest)
  | None => None
  end.

(** [CreateDataProperty]: a key already present keeps its place and takes the
    new value, a new key goes last. *)
Fixpoint define_member (m : list (string * json)) (k : string) (v : json)
    : list (string * json) :=
  match m with
  | [] => [(k, v)]
  | (k', v') :: r =>
      if decide (k' = k) then (k, v) :: r else (k', v') :: define_member r k v
  end.

Definition build_object (l : list (string * json)) : json :=
  JObj (foldl (λ m e, define_member m (fst e) (snd e)) [] l).

(** The punctuator [c] after optional white space, and what follows it. *)
Definition closing (c : ascii) (s : string) : option string :=
  match skip_ws s with
  | EmptyString => None
  | String c' rest => if decide (c' = c) then Some rest else None
  end.

(** Recursive descent.  [read_value] reads one value after optional white
    space; [read_elements] reads [value (, value)* ]] and [read_members] reads
    [string : value (, string : value)* }], each after the opening bracket of
    a non-empty array or object. *)
Fixpoint read_value (fuel : nat) (s : string) : option (json * string) :=
  match fuel with
  | O => None
  | S fuel' =>
      match skip_ws s with
      | EmptyString => None
      | String c r =>
          match c with
          | "n" => expect "ull" JNull r
          | "t" => expect "rue" (JBool true) r
          | "f" => expect "alse" (JBool false) r
          | "034" =>
              match read_string_body r with
              | Some (str, rest) => Some (JStr str, rest)
              | None => None
              end
          | "[" =>
              match closing "]" r with
              | Some rest => Some (JArr [], rest)
              | None =>
                  match read_elements fuel' r with
                  | Some (l, rest) => Some (JArr l, rest)
                  | None => None
                  end
              end
          | "{" =>
              match closing "}" r with
              | Some rest => Some (JObj [], rest)
              | None =>
                  match read_members fuel' r with
                  | Some (l, rest) => Some (build_object l, rest)
                  | None => None
                  end
              end
          | "-" => read_number true r
          | _ => read_number false (String c r)
          end
      end
  end%char
with read_elements (fuel : nat) (s : string) : option (list json * string) :=
  match fuel with
  | O => None
  | S fuel' =>
      match read_value fuel' s with
      | Some (v, rest) =>
          match closing "]" rest with
          | Some rest' => Some ([v], rest')
          | None =>
              match closing "," rest with
              | Some rest' =>
                  match read_elements fuel' rest' with
                  | Some (l, rest'') => Some (v :: l, rest'')
                  | None => None
                  end
              | None => None
              end
          end
      | None => None
      end
  end%char
with read_members (fuel : nat) (s : string) : option (list (string * json) * string) :=
  match fuel with
  | O => None
  | S fuel' =>
      match closing "034" s with
      | Some r =>
          match read_string_body r with
          | Some (key, rest) =>
              match closing ":" rest with
              | Some rest' =>
                  match read_value fuel' rest' with
                  | Some (v, rest'') =>
                      match closing "}" rest'' with
                      | Some t => Some ([(key, v)], t)
                      | None =>
                          match closing "," rest'' with
                          | Some t =>
                              match read_members fuel' t with
                              | Some (l, t') => Some ((key, v) :: l, t')
                              | None => None
                              end
                          | None => None
                          end
                      end
                  | None => None
                  end
              | None => None
              end
          | None => None
          end
      | None => None
      end
  end%char.

(** [JSON.parse(text)]: one value, then nothing but white space.  Every level
    of nesting costs two units of fuel and at least one character. *)
Definition parse (text : string) : option json :=
  match read_value (2 * String.length text + 1) text with
  | Some (v, rest) =>
      match skip_ws rest with
      | EmptyString => Some v
      | _ => None
      end
  | None => None
  end.

(** Object keys are unique at every level: what a JavaScript object
    guarantees of the value being serialized. *)
Fixpoint unique_keys (v : json) : Prop :=
  match v with
  | JArr l => foldr (λ x P, unique_keys x ∧ P) True l
  | JObj m => NoDup m.*1 ∧ foldr (λ e P, unique_keys (snd e) ∧ P) True m
  | _ => True
  end.

End Json.

(** ** What the routes get from their host: [child_process.execSync], the
    ambient [process.env] and [JSON.parse] *)

(** One call of [execSync(fullCommand, {env, cwd, ...})]. *)
Record Invocation : Type := {
  fullCommand : string;
  fullEnv : gmap string string;
  workingDir : string
}.

(** The error thrown by [execSync]: [error.stdout] and [error.message], each
    possibly undefined. *)
Record ExecError : Type := {
  err_stdout : option string;
  err_message : option string
}.

Inductive ExecOutcome : Type :=
  | Returned (stdout : string)
  | Thrown (e : ExecError).

Class Host : Type := {
  World : Type;
  execSync : Invocation → World → ExecOutcome * World;
  process_env : gmap string string;
  JSON_parse : string → Completion json
}.

(** The state threaded through a request: the outside world and the list of
    processes spawned so far, oldest first. *)
Record Sys `{Host} : Type := {
  world : World;
  spawned : list Invocation
}.

Definition Proc `{Host} (A : Type) : Type := Sys → A * Sys.

Global Instance Proc_ret `{Host} : MRet Proc := λ A x s, (x, s).
Global Instance Proc_bind `{Host} : MBind Proc :=
  λ A B f m s, let '(a, s') := m s in f a s'.

(** Spawn a process and log the call. *)
Definition spawn `{Host} (inv : Invocation) : Proc ExecOutcome :=
  λ s, let '(o, w) := execSync inv (world s) in
       (o, {| world := w; spawned := spawned s ++ [inv] |}).

(** ** [app/routes/api.github-cli-exec.ts] *)
Module Exec.

Inductive Platform : Type := windows | linux | macos.

Record CLIConfig : Type := { path : string; cwd : string }.

Definition GITHUB_CLI_CONFIG (p : Platform) : CLIConfig :=
  match p with
  | windows => {| path := "C:\users\neal7\devtools\github cli\bin\gh.exe";
                  cwd := "C:\users\neal7\devtools\github cli" |}
  | linux => {| path := "/usr/local/bin/gh"; cwd := "/home" |}
  | macos => {| path := "/usr/local/bin/gh"; cwd := "/Users" |}
  end.

Definition getPlatform : Platform := windows.

(** A request body of the declared type: [command] a string, [args] absent
    or an array of strings, [env] absent or a record of strings, [cwd] absent
    or a string. *)
Record GitHubCLIExecRequest : Type := {
  req_command : string;
  req_args : option (list string);
  req_env : option (gmap string string);
  req_cwd : option string
}.

Record User : Type := { login : value; name : value }.

Record GitHubCLIExecResponse : Type := {
  success : bool;
  command : string;
  output : string;
  error : option string;
  version : option string;
  user : option User
}.

Definition set_version (v : option string) (r : GitHubCLIExecResponse) :=
  {| success := success r; command := command r; output := output r;
     error := error r; version := v; user := user r |}.

Definition set_user (u : option User) (r : GitHubCLIExecResponse) :=
  {| success := success r; command := command r; output := output r;
     error := error r; version := version r; user := u |}.

Section WithHost.
Context `{Host}.

Definition executeGitHubCLICommand (command : string) (args : list string)
    (env : gmap string string) (cwd : option string) : Proc GitHubCLIExecResponse :=
  let config := GITHUB_CLI_CONFIG getPlatform in
  let workingDir := or_string cwd (Exec.cwd config) in
  let fullCommand := quoted (path config) +:+ " " +:+ command +:+ " " +:+ join " " args in
  let fullEnv := env ∪ process_env in
  o ← spawn {| fullCommand := fullCommand; fullEnv := fullEnv; workingDir := workingDir |};
  match o with
  | Returned out =>
      mret {| success := true; command := command +:+ " " +:+ join " " args;
              output := trim out; error := None; version := None; user := None |}
  | Thrown e =>
      mret {| success := false; command := command +:+ " " +:+ join " " args;
              output := or_string (err_stdout e) "";
              error := Some (or_string (err_message e) "Command execution failed");
              version := None; user := None |}
  end.

(** The anchored part of [/gh version (\S+)/]: the literal, then the longest
    non-empty run of non-white-space characters (the capture group). *)
Fixpoint nonSpaceRun (s : string) : string :=
  match s with
  | EmptyString => EmptyString
  | String c r => if isWhiteSpace c then EmptyString else String c (nonSpaceRun r)
  end.

Definition matchHere (s : string) : option string :=
  match stripPrefix "gh version " s with
  | Some rest =>
      match nonSpaceRun rest with
      | EmptyString => None
      | tok => Some tok
      end
  | None => None
  end.

(** [output.match(/gh version (\S+)/)], reduced to capture group 1: the
    leftmost position where the pattern matches wins. *)
Fixpoint versionMatch (s : string) : option string :=
  match matchHere s with
  | Some tok => Some tok
  | None =>
      match s with
      | EmptyString => None
      | String _ r => versionMatch r
      end
  end.

Definition allowedCommands : list string :=
  ["version"; "auth"; "repo"; "issue"; "pr"; "workflow"; "api"; "gist"; "secret";
   "ssh-key"].

Definition isAllowed (command : string) : bool :=
  let baseCommand := toLowerCase command in
  existsb (λ cmd, startsWith baseCommand cmd) allowedCommands.

(** The body of an HTTP reply: the bare [{success, error}] object of the 405
    reply, or a [GitHubCLIExecResponse]. *)
Inductive Body : Type :=
  | PlainBody (success : bool) (error : string)
  | ExecBody (r : GitHubCLIExecResponse).

Record HttpResponse : Type := { status : nat; body : Body }.

(** Remix's [json(data)]: status 200 unless told otherwise. *)
Definition json_reply (r : GitHubCLIExecResponse) : HttpResponse :=
  {| status := 200; body := ExecBody r |}.

(** The incoming request: its method and what lines 99 to 118 make of its
    body, a body of the declared type or a thrown error.  [Throw] stands for
    a body that [request.json()] cannot read and also for a readable body on
    which [args.join] or [command.toLowerCase] throws ([args] not an array,
    [command] not a string): both end in the outer [catch]. *)
Record Request : Type := {
  method : string;
  request_json : Completion GitHubCLIExecRequest
}.

(** The [try] block around [JSON.parse(userResult.output)] and the two
    property reads; [None] when anything in it throws. *)
Definition parseUser (text : string) : option User :=
  match JSON_parse text with
  | Throw _ => None
  | Normal userData =>
      match get_prop userData "login", get_prop userData "name" with
      | Normal l, Normal n => Some {| login := l; name := or_else n l |}
      | _, _ => None
      end
  end.

Definition action (request : Request) : Proc HttpResponse :=
  if decide (method request = "POST") then
    match request_json request with
    | Throw message =>
        mret (json_reply {| success := false; command := ""; output := "";
                            error := Some message; version := None; user := None |})
    | Normal body =>
        let command := req_command body in
        let args := default [] (req_args body) in
        let env := default ∅ (req_env body) in
        let cwd := req_cwd body in
        if negb (isAllowed command) then
          mret (json_reply
            {| success := false; command := command +:+ " " +:+ join " " args;
               output := "";
               error := Some ("Command '" +:+ command +:+
                              "' is not allowed for security reasons");
               version := None; user := None |})
        else if decide (command = "version") then
          result ← executeGitHubCLICommand command args env cwd;
          mret (json_reply
            (if success result
             then match versionMatch (output result) with
                  | Some v => set_version (Some v) result
                  | None => result
                  end
             else result))
        else if startsWith command "auth" then
          result ← executeGitHubCLICommand command args env cwd;
          if bool_decide (command = "auth status") && success result then
            userResult ← executeGitHubCLICommand "api" ["user"] env cwd;
            mret (json_reply
              (if success userResult
               then match parseUser (output userResult) with
                    | Some u => set_user (Some u) result
                    | None => result
                    end
               else result))
          else mret (json_reply result)
        else
          result ← executeGitHubCLICommand command args env cwd;
          mret (json_reply result)
    end
  else mret {| status := 405; body := PlainBody false "Method not allowed" |}.

End WithHost.

End Exec.

(** ** The status route ([part_000]) *)
Module Status.

Inductive Platform : Type := windows | linux | macos.

Record CLIConfig : Type := { path : string; cwd : string }.

Definition GITHUB_CLI_CONFIG (p : Platform) : CLIConfig :=
  match p with
  | windows => {| path := "C:\users\neal7\devtools\github cli\bin\gh.exe";
                  cwd := "C:\users\neal7\devtools\github cli" |}
  | linux => {| path := "/usr/local/bin/gh"; cwd := "/home" |}
  | macos => {| path := "/usr/local/bin/gh"; cwd := "/Users" |}
  end.

Definition getPlatform : Platform := windows.

Record User : Type := { login : value; name : value; email : value }.

Record GitHubCLIStatusResponse : Type := {
  isInstalled : bool;
  isAuthenticated : bool;
  version : option string;
  user : option User;
  error : option string
}.

(** What the route's own helper returns: [{success, output, error?}]. *)
Record CommandResult : Type := {
  success : bool;
  output : string;
  cmd_error : option string
}.

Section WithHost.
Context `{Host}.

(** The [command] parameter is accepted and never used: the command line is
    built from the path and [args] alone. *)
Definition executeGitHubCLICommand (command : string) (args : list string)
    (env : gmap string string) : Proc CommandResult :=
  let config := GITHUB_CLI_CONFIG getPlatform in
  let fullCommand := quoted (path config) +:+ " " +:+ join " " args in
  let fullEnv := env ∪ process_env in
  o ← spawn {| fullCommand := fullCommand; fullEnv := fullEnv;
               workingDir := cwd config |};
  match o with
  | Returned out => mret {| success := true; output := trim out; cmd_error := None |}
  | Thrown e =>
      mret {| success := false; output := or_string (err_stdout e) "";
              cmd_error := Some (or_string (err_message e) "Command execution failed") |}
  end.

(** The [try] block around [JSON.parse(userResult.output)] and the three
    property reads. *)
Definition parseUser (text : string) : option User :=
  match JSON_parse text with
  | Throw _ => None
  | Normal userData =>
      match get_prop userData "login", get_prop userData "name",
            get_prop userData "email" with
      | Normal l, Normal n, Normal e =>
          Some {| login := l; name := or_else n l; email := e |}
      | _, _, _ => None
      end
  end.

(** The route's loader.  The [action] query parameter is only logged, and
    nothing inside the outer [try] can throw once the helper has caught its
    own errors, so the loader is a function of the outside world alone. *)
Definition loader : Proc GitHubCLIStatusResponse :=
  checkResult ← executeGitHubCLICommand "version" [] ∅;
  if negb (success checkResult) then
    mret {| isInstalled := false; isAuthenticated := false; version := None;
            user := None;
            error := Some (or_string (cmd_error checkResult) "GitHub CLI not found") |}
  else
    let version := output checkResult in
    authResult ← executeGitHubCLICommand "auth" ["status"] ∅;
    if success authResult then
      userResult ← executeGitHubCLICommand "api" ["user"] ∅;
      mret {| isInstalled := true; isAuthenticated := true; version := Some version;
              user := if success userResult then parseUser (output userResult) else None;
              error := None |}
    else
      mret {| isInstalled := true; isAuthenticated := false; version := Some version;
              user := None; error := None |}.

End WithHost.

End Status.

(** ** [app/lib/stores/mcp.ts] *)
Module McpStore.

Definition MCP_SETTINGS_KEY : string := "mcp_settings".

(** Modelled from the spec: the declaration of [MCPConfig] in
    [lib/services/mcpService] is not among the sources.  A server definition
    has a transport type, an executable path, an argument list, an
    environment mapping and a working directory, under the field names that
    [getDefaultGitHubCLIConfig] uses; a configuration maps unique server
    names to definitions. *)
Record MCPServerConfig : Type := {
  type : string;
  command : string;
  args : list string;
  env : gmap string string;
  cwd : string
}.

Record MCPConfig : Type := { mcpServers : gmap string MCPServerConfig }.

Record MCPSettings : Type := {
  mcpConfig : MCPConfig;
  maxLLMSteps : Z
}.

(** The JavaScript objects behind the typed records.  Servers and
    environment variables are listed in the order of the map's keys; a
    JavaScript object lists them in the order they were inserted, so these
    values stand for the objects up to the order of those members, and the
    text [Json.stringify] gives for them for the text [JSON.stringify] gives
    up to that order. *)
Definition server_value (c : MCPServerConfig) : json :=
  JObj [("type", JStr (type c)); ("command", JStr (command c));
        ("args", JArr (JStr <$> args c));
        ("env", JObj (prod_map id JStr <$> map_to_list (env c)));
        ("cwd", JStr (cwd c))].

Definition config_value (c : MCPConfig) : json :=
  JObj [("mcpServers", JObj (prod_map id server_value <$> map_to_list (mcpServers c)))].

Definition settings_value (s : MCPSettings) : json :=
  JObj [("mcpConfig", config_value (mcpConfig s)); ("maxLLMSteps", JNum (maxLLMSteps s))].

Definition defaultSettings : json :=
  JObj [("maxLLMSteps", JNum 5); ("mcpConfig", JObj [("mcpServers", JObj [])])].

(** The store holds run-time values: [JSON.parse(savedConfig) as MCPSettings]
    checks nothing, and [MCPServerTools] is opaque here. *)
Record Store : Type := {
  isInitialized : bool;
  settings : json;
  serverTools : json;
  error : option string;
  isUpdatingConfig : bool
}.

Definition initialStore : Store :=
  {| isInitialized := false; settings := defaultSettings; serverTools := JObj [];
     error := None; isUpdatingConfig := false |}.

(** One call of [fetch(url, {method, headers, body})]. *)
Record FetchRequest : Type := {
  url : string;
  fetch_method : string;
  fetch_body : option string
}.

(** How a [fetch] ends: the promise rejects, or a response arrives with its
    [ok] flag, status, status text and body text. *)
Inductive FetchOutcome : Type :=
  | FetchFailed (message : string)
  | FetchResponse (ok : bool) (status : nat) (statusText : string) (text : string).

(** The browser side: the store, [localStorage], and the requests sent so far. *)
Record Browser : Type := {
  store : Store;
  localStorage : gmap string string;
  fetched : list FetchRequest
}.

Definition set_store (f : Store → Store) (b : Browser) : Browser :=
  {| store := f (store b); localStorage := localStorage b; fetched := fetched b |}.

Definition set_isUpdatingConfig (v : bool) (s : Store) : Store :=
  {| isInitialized := isInitialized s; settings := settings s;
     serverTools := serverTools s; error := error s; isUpdatingConfig := v |}.

Definition set_settings_serverTools (st tools : json) (s : Store) : Store :=
  {| isInitialized := isInitialized s; settings := st; serverTools := tools;
     error := error s; isUpdatingConfig := isUpdatingConfig s |}.

Definition set_error (e : string) (s : Store) : Store :=
  {| isInitialized := isInitialized s; settings := settings s;
     serverTools := serverTools s; error := Some e;
     isUpdatingConfig := isUpdatingConfig s |}.

Definition set_isInitialized (v : bool) (s : Store) : Store :=
  {| isInitialized := v; settings := settings s; serverTools := serverTools s;
     error := error s; isUpdatingConfig := isUpdatingConfig s |}.

(** [localStorage.setItem(k, v)], and below [getItem] as a lookup: storage
    that answers.  A storage that throws (quota, access denied) is not
    modelled. *)
Definition setItem (k v : string) (b : Browser) : Browser :=
  {| store := store b; localStorage := <[k := v]> (localStorage b);
     fetched := fetched b |}.

Definition send (r : FetchRequest) (b : Browser) : Browser :=
  {| store := store b; localStorage := localStorage b; fetched := fetched b ++ [r] |}.

(** How an asynchronous call settles. *)
Inductive Settled : Type :=
  | Resolved
  | Rejected (message : string).

(** Where a call stands when it gives control back: settled, or suspended at
    [await fetch(...)] inside [updateServerConfig]. *)
Inductive Progress (A : Type) : Type :=
  | Finished (r : Settled)
  | Awaiting (k : A).
Global Arguments Finished {A} r.
Global Arguments Awaiting {A} k.

Section WithHost.
Context (isBrowser : bool) (JSON_parse : string → Completion json).

(** [updateServerConfig] up to its first [await]: the request it sends. *)
Definition updateServerConfig_request (config : value) : FetchRequest :=
  {| url := "/api/mcp-update-config"; fetch_method := "POST";
     fetch_body := Json.stringify_value config |}.

(** [updateServerConfig] after the [await]: throws unless the response is ok,
    then [response.json()]. *)
Definition updateServerConfig_result (o : FetchOutcome) : Completion json :=
  match o with
  | FetchFailed message => Throw message
  | FetchResponse ok status statusText text =>
      if ok then JSON_parse text
      else Throw ("Server responded with " +:+ pretty status +:+ ": " +:+ statusText)
  end.

(** [updateSettings] from the call to its first suspension.  The store is not
    touched between the inner awaits, so they are one suspension here. *)
Definition updateSettings_call (newSettings : MCPSettings) (b : Browser)
    : Browser * Progress MCPSettings :=
  if isUpdatingConfig (store b) then (b, Finished Resolved)
  else
    let b1 := set_store (set_isUpdatingConfig true) b in
    let b2 := send (updateServerConfig_request
                      (Some (config_value (mcpConfig newSettings)))) b1 in
    (b2, Awaiting newSettings).

(** [updateSettings] from the moment the discovery request settles: the rest
    of the [try] block, the rethrowing [catch], and the [finally]. *)
Definition updateSettings_resume (newSettings : MCPSettings) (o : FetchOutcome)
    (b : Browser) : Browser * Settled :=
  match updateServerConfig_result o with
  | Normal serverTools =>
      let b1 := if isBrowser
                then setItem MCP_SETTINGS_KEY
                       (Json.stringify (settings_value newSettings)) b
                else b in
      let b2 := set_store
                  (set_settings_serverTools (settings_value newSettings) serverTools) b1 in
      (set_store (set_isUpdatingConfig false) b2, Resolved)
  | Throw message =>
      (set_store (set_isUpdatingConfig false) b, Rejected message)
  end.

(** [initialize] from the call to its first suspension. *)
Definition initialize_call (b : Browser) : Browser * Progress json :=
  if isInitialized (store b) then (b, Finished Resolved)
  else if isBrowser then
    match localStorage b !! MCP_SETTINGS_KEY with
    | Some (String c r) =>
        let savedConfig := String c r in
        let failed (message : string) :=
          set_store (set_isInitialized true)
            (set_store (set_error ("Error parsing saved mcp config: " +:+ message)) b) in
        match JSON_parse savedConfig with
        | Normal settings =>
            match get_prop settings "mcpConfig" with
            | Normal config =>
                (send (updateServerConfig_request config) b, Awaiting settings)
            | Throw message => (failed message, Finished Resolved)
            end
        | Throw message => (failed message, Finished Resolved)
        end
    | _ =>
        (set_store (set_isInitialized true)
           (setItem MCP_SETTINGS_KEY (Json.stringify defaultSettings) b),
         Finished Resolved)
    end
  else (set_store (set_isInitialized true) b, Finished Resolved).

(** [initialize] from the moment the discovery request settles. *)
Definition initialize_resume (settings : json) (o : FetchOutcome) (b : Browser)
    : Browser * Settled :=
  match updateServerConfig_result o with
  | Normal serverTools =>
      (set_store (set_isInitialized true)
         (set_store (set_settings_serverTools settings serverTools) b), Resolved)
  | Throw message =>
      (set_store (set_isInitialized true)
         (set_store (set_error ("Error parsing saved mcp config: " +:+ message)) b),
       Resolved)
  end.

(** A session of the store: calls of [updateSettings] arrive, and discovery
    requests settle in the order they were sent. *)
Inductive Event : Type :=
  | CallUpdateSettings (newSettings : MCPSettings)
  | DiscoverySettles (o : FetchOutcome).

Record Session : Type := {
  browser : Browser;
  inFlight : list MCPSettings;
  outcomes : list Settled
}.

Definition step (s : Session) (e : Event) : Session :=
  match e with
  | CallUpdateSettings newSettings =>
      match updateSettings_call newSettings (browser s) with
      | (b, Finished r) =>
          {| browser := b; inFlight := inFlight s; outcomes := outcomes s ++ [r] |}
      | (b, Awaiting k) =>
          {| browser := b; inFlight := inFlight s ++ [k]; outcomes := outcomes s |}
      end
  | DiscoverySettles o =>
      match inFlight s with
      | [] => s
      | k :: rest =>
          let '(b, r) := updateSettings_resume k o (browser s) in
          {| browser := b; inFlight := rest; outcomes := outcomes s ++ [r] |}
      end
  end.

Definition run (s : Session) (events : list Event) : Session := foldl step s events.

(** [checkServersAvailabilities] up to its [await]: the request it sends. *)
Definition checkServersAvailabilities_call (b : Browser) : Browser * Progress unit :=
  (send {| url := "/api/mcp-check"; fetch_method := "GET"; fetch_body := None |} b,
   Awaiting ()).

(** [checkServersAvailabilities] from the moment the request settles. *)
Definition checkServersAvailabilities_resume (o : FetchOutcome) (b : Browser)
    : Browser * Settled :=
  match o with
  | FetchFailed message => (b, Rejected message)
  | FetchResponse ok status statusText text =>
      if ok then
        match JSON_parse text with
        | Normal serverTools =>
            (set_store (λ s, {| isInitialized := isInitialized s;
                                settings := settings s; serverTools := serverTools;
                                error := error s;
                                isUpdatingConfig := isUpdatingConfig s |}) b,
             Resolved)
        | Throw message => (b, Rejected message)
        end
      else
        (b, Rejected ("Server responded with " +:+ pretty status +:+ ": " +:+
                      statusText))
  end.

End WithHost.

Inductive Platform : Type := windows | linux | macos.

Definition GITHUB_CLI_PATHS (p : Platform) : string :=
  match p with
  | windows => "C:\users\neal7\devtools\github cli\bin\gh.exe"
  | linux => "/usr/local/bin/gh"
  | macos => "/usr/local/bin/gh"
  end.

(** [getPlatform], as a function of [navigator.platform]; [None] when
    [navigator] or its [platform] is undefined.  The component
    [GitHubCLIConfig.tsx] has the same function. *)
Definition getPlatform (navigator_platform : option string) : Platform :=
  match navigator_platform with
  | Some (String c r) =>
      let platform := String c r in
      if includes platform "Win" then windows
      else if includes platform "Mac" then macos
      else if includes platform "Linux" then linux
      else windows
  | _ => windows
  end.

(** [getDefaultGitHubCLIConfig], for the platform [getPlatform] returns. *)
Definition getDefaultGitHubCLIConfig (platform : Platform)
    : gmap string MCPServerConfig :=
  <["github" :=
      {| type := "stdio"; command := GITHUB_CLI_PATHS platform;
         args := ["api"; "--hostname"; "github.com"]; env := ∅;
         cwd := replace "\bin\gh.exe" "" (GITHUB_CLI_PATHS platform) |}]>
  (<["github-cli" :=
      {| type := "stdio"; command := GITHUB_CLI_PATHS platform;
         args := []; env := ∅;
         cwd := replace "\bin\gh.exe" "" (GITHUB_CLI_PATHS platform) |}]> ∅).

End McpStore.

(** ** [app/components/@settings/tabs/github/GitHubCLIConfig.tsx]

    The state of the component and its handlers, each split at its [await]
    into the part that sends the request and the part that runs when the
    request has settled.  The optional [onStatusChange] callback is taken as
    absent, and rendering is outside the model. *)
Module GitHubCLIConfig.

(** The status as the component holds it: what arrives in [data] is not
    checked, so every field is a run-time value. *)
Record GitHubCLIStatus : Type := {
  isInstalled : value;
  isAuthenticated : value;
  version : value;
  user : value;
  error : value
}.

Record State : Type := {
  isExpanded : bool;
  isLoading : bool;
  status : GitHubCLIStatus;
  cliPath : string;
  testOutput : value
}.

Definition initialState (navigator_platform : option string) : State :=
  {| isExpanded := false; isLoading := false;
     status := {| isInstalled := Some (JBool false);
                  isAuthenticated := Some (JBool false);
                  version := None; user := None; error := None |};
     cliPath := McpStore.GITHUB_CLI_PATHS (McpStore.getPlatform navigator_platform);
     testOutput := Some (JStr "") |}.

Definition setIsLoading (v : bool) (ui : State) : State :=
  {| isExpanded := isExpanded ui; isLoading := v; status := status ui;
     cliPath := cliPath ui; testOutput := testOutput ui |}.

Definition setStatus (f : GitHubCLIStatus → GitHubCLIStatus) (ui : State) : State :=
  {| isExpanded := isExpanded ui; isLoading := isLoading ui; status := f (status ui);
     cliPath := cliPath ui; testOutput := testOutput ui |}.

Definition setTestOutput (v : value) (ui : State) : State :=
  {| isExpanded := isExpanded ui; isLoading := isLoading ui; status := status ui;
     cliPath := cliPath ui; testOutput := v |}.

(** [a ?? b] *)
Definition nullish_or (a b : value) : value :=
  match a with
  | None | Some JNull => b
  | _ => a
  end.

(** A property of a value already known not to be [null]. *)
Definition member (data : json) (k : string) : value :=
  match get_prop data k with
  | Normal v => v
  | Throw _ => None
  end.

(** The status shown when a check fails with [message]. *)
Definition failedStatus (message : string) : GitHubCLIStatus :=
  {| isInstalled := Some (JBool false); isAuthenticated := Some (JBool false);
     version := None; user := None; error := Some (JStr message) |}.

(** The body the exec handlers send: [{command, args}]. *)
Definition execRequest (command : string) (args : list string)
    : Exec.GitHubCLIExecRequest :=
  {| Exec.req_command := command; Exec.req_args := Some args;
     Exec.req_env := None; Exec.req_cwd := None |}.

Section WithParser.
Context (JSON_parse : string → Completion json).

(** [await response.json()], then the first property read of [data]; both
    throw into the handler's [catch]. *)
Definition readData (text : string) (k : string) : Completion (json * value) :=
  match JSON_parse text with
  | Normal data =>
      match get_prop data k with
      | Normal v => Normal (data, v)
      | Throw message => Throw message
      end
  | Throw message => Throw message
  end.

Definition checkGitHubCLIStatus_call (ui : State) : State * McpStore.FetchRequest :=
  (setIsLoading true ui,
   {| McpStore.url := "/api/github-cli-status"; McpStore.fetch_method := "GET";
      McpStore.fetch_body := None |}).

Definition checkGitHubCLIStatus_settle (o : McpStore.FetchOutcome) (ui : State) : State :=
  setIsLoading false
    match o with
    | McpStore.FetchFailed message => setStatus (λ _, failedStatus message) ui
    | McpStore.FetchResponse ok _ _ text =>
        if ok then
          match readData text "isInstalled" with
          | Normal (data, installed) =>
              setStatus
                (λ _, {| isInstalled := nullish_or installed (Some (JBool true));
                         isAuthenticated :=
                           nullish_or (member data "isAuthenticated")
                                      (Some (JBool false));
                         version := member data "version";
                         user := member data "user";
                         error := member data "error" |}) ui
          | Throw message => setStatus (λ _, failedStatus message) ui
          end
        else setStatus (λ _, failedStatus "GitHub CLI not configured") ui
    end.

Definition testGitHubCLI_call (ui : State) : State * Exec.GitHubCLIExecRequest :=
  (setTestOutput (Some (JStr "")) (setIsLoading true ui), execRequest "version" []).

Definition testGitHubCLI_settle (o : McpStore.FetchOutcome) (ui : State) : State :=
  setIsLoading false
    match o with
    | McpStore.FetchFailed message => setTestOutput (Some (JStr message)) ui
    | McpStore.FetchResponse _ _ _ text =>
        match readData text "success" with
        | Normal (data, success) =>
            if truthy success then
              setStatus
                (λ prev, {| isInstalled := Some (JBool true);
                            isAuthenticated := isAuthenticated prev;
                            version := member data "version";
                            user := user prev; error := error prev |})
                (setTestOutput (member data "output") ui)
            else
              setStatus
                (λ prev, {| isInstalled := Some (JBool false);
                            isAuthenticated := isAuthenticated prev;
                            version := version prev; user := user prev;
                            error := member data "error" |})
                (setTestOutput
                   (or_else (member data "error") (Some (JStr "Command failed"))) ui)
        | Throw message => setTestOutput (Some (JStr message)) ui
        end
    end.

Definition checkAuthStatus_call (ui : State) : State * Exec.GitHubCLIExecRequest :=
  (setIsLoading true ui, execRequest "auth" ["status"]).

Definition checkAuthStatus_settle (o : McpStore.FetchOutcome) (ui : State) : State :=
  setIsLoading false
    match o with
    | McpStore.FetchFailed message => setTestOutput (Some (JStr message)) ui
    | McpStore.FetchResponse _ _ _ text =>
        match readData text "success" with
        | Normal (data, success) =>
            if truthy success then
              setStatus
                (λ prev, {| isInstalled := isInstalled prev;
                            isAuthenticated := Some (JBool true);
                            version := version prev;
                            user := member data "user"; error := error prev |})
                (setTestOutput (member data "output") ui)
            else
              setStatus
                (λ prev, {| isInstalled := isInstalled prev;
                            isAuthenticated := Some (JBool false);
                            version := version prev; user := user prev;
                            error := error prev |})
                (setTestOutput
                   (or_else (member data "output") (member data "error")) ui)
        | Throw message => setTestOutput (Some (JStr message)) ui
        end
    end.

End WithParser.

End GitHubCLIConfig.

(** ** Between the routes and the component: what [json(body)] puts on the
    wire.  Members whose value is undefined are left out, as
    [JSON.stringify] does. *)
Definition optionalMember (k : string) (v : value) : list (string * json) :=
  match v with
  | Some x => [(k, x)]
  | None => []
  end.

Definition execUserValue (u : Exec.User) : json :=
  JObj (optionalMember "login" (Exec.login u) ++ optionalMember "name" (Exec.name u)).

Definition execBodyValue (body : Exec.Body) : json :=
  match body with
  | Exec.PlainBody success error =>
      JObj [("success", JBool success); ("error", JStr error)]
  | Exec.ExecBody r =>
      JObj ([("success", JBool (Exec.success r)); ("command", JStr (Exec.command r));
             ("output", JStr (Exec.output r))] ++
            optionalMember "error" (JStr <$> Exec.error r) ++
            optionalMember "version" (JStr <$> Exec.version r) ++
            optionalMember "user" (execUserValue <$> Exec.user r))
  end.

Definition statusUserValue (u : Status.User) : json :=
  JObj (optionalMember "login" (Status.login u) ++
        optionalMember "name" (Status.name u) ++
        optionalMember "email" (Status.email u)).

Definition statusBodyValue (r : Status.GitHubCLIStatusResponse) : json :=
  JObj ([("isInstalled", JBool (Status.isInstalled r));
         ("isAuthenticated", JBool (Status.isAuthenticated r))] ++
        optionalMember "version" (JStr <$> Status.version r) ++
        optionalMember "user" (statusUserValue <$> Status.user r) ++
        optionalMember "error" (JStr <$> Status.error r)).

(** The response the browser receives for a reply: ok for a status from 200
    to 299, and the serialized body as text. *)
Definition received (status : nat) (body : json) : McpStore.FetchOutcome :=
  McpStore.FetchResponse ((200 <=? status)%nat && (status <=? 299)%nat) status "OK"
    (Json.stringify body).

(** The reply of the gateway to a handler's request, and what the browser
    receives for it. *)
Definition execReply `{Host} (request : Exec.GitHubCLIExecRequest) (s : Sys)
    : Exec.HttpResponse :=
  (Exec.action {| Exec.method := "POST"; Exec.request_json := Normal request |} s).1.

Definition execReceived `{Host} (request : Exec.GitHubCLIExecRequest) (s : Sys)
    : McpStore.FetchOutcome :=
  received (Exec.status (execReply request s))
    (execBodyValue (Exec.body (execReply request s))).

(** What the browser receives from the status route. *)
Definition statusReceived `{Host} (s : Sys) : McpStore.FetchOutcome :=
  received 200 (statusBodyValue (Status.loader s).1).

(** The body arrives intact: parsing the text received gives the value sent. *)
Definition arrivesIntact (JSON_parse_client : string → Completion json) (body : json)
    : Prop :=
  JSON_parse_client (Json.stringify body) = Normal body.

(** ** A concrete host, sample data, and the vocabulary of the properties *)

(** [JSON.parse] as a throwing function, from the parser of module [Json]. *)
Definition parseOrThrow (text : string) : Completion json :=
  match Json.parse text with
  | Some v => Normal v
  | None => Throw "Unexpected token in JSON"
  end.

(** A host that replays recorded outcomes: each spawn takes the next one, and
    an exhausted script behaves like a missing executable. *)
Definition scriptedHost : Host :=
  {| World := list ExecOutcome;
     execSync := λ _ w,
       match w with
       | [] => (Thrown {| err_stdout := None; err_message := Some "spawnSync ENOENT" |}, [])
       | o :: r => (o, r)
       end;
     process_env := {["PATH" := "/usr/bin"]};
     JSON_parse := parseOrThrow |}.

Definition scriptedSys (script : list ExecOutcome) : @Sys scriptedHost :=
  @Build_Sys scriptedHost script [].

(** Sample data: the [github] server of [getDefaultGitHubCLIConfig] on Linux,
    settings that configure it, and a browser in which an update is already
    in progress. *)
Definition githubServer : McpStore.MCPServerConfig :=
  {| McpStore.type := "stdio"; McpStore.command := "/usr/local/bin/gh";
     McpStore.args := ["api"; "--hostname"; "github.com"];
     McpStore.env := {["GH_PAGER" := "cat"]}; McpStore.cwd := "/usr/local/bin/gh" |}.

Definition sampleSettings : McpStore.MCPSettings :=
  {| McpStore.mcpConfig := {| McpStore.mcpServers := {["github" := githubServer]} |};
     McpStore.maxLLMSteps := 5 |}.

Definition idleBrowser : McpStore.Browser :=
  {| McpStore.store := McpStore.initialStore; McpStore.localStorage := ∅;
     McpStore.fetched := [] |}.

Definition busyBrowser : McpStore.Browser :=
  McpStore.set_store (McpStore.set_isUpdatingConfig true) idleBrowser.

(** What follows a value in serialized text: nothing, a comma, a closing
    bracket or a closing brace. *)
Definition delimited (k : string) : Prop :=
  match k with
  | EmptyString => True
  | String c _ => c = ","%char ∨ c = "]"%char ∨ c = "}"%char
  end.

(** Fuel that [read_value] needs for a value: one unit for the value and one
    for each element or member below it. *)
Fixpoint weight (v : json) : nat :=
  match v with
  | JArr l => S (foldr (λ x n, S (weight x + n)) 0 l)
  | JObj m => S (foldr (λ e n, S (weight (snd e) + n)) 0 m)
  | _ => 1
  end.

(** Well-formed settings: the configuration is a mapping by construction,
    and the step bound is positive. *)
Definition wellFormed (s : McpStore.MCPSettings) : Prop := (0 < McpStore.maxLLMSteps s)%Z.

(** The store with an error recorded and the initialized flag set, everything
    else as in [b]. *)
Definition initializedWithError (message : string) (b : McpStore.Browser)
    : McpStore.Browser :=
  {| McpStore.store :=
       {| McpStore.isInitialized := true;
          McpStore.settings := McpStore.settings (McpStore.store b);
          McpStore.serverTools := McpStore.serverTools (McpStore.store b);
          McpStore.error := Some ("Error parsing saved mcp config: " +:+ message);
          McpStore.isUpdatingConfig := McpStore.isUpdatingConfig (McpStore.store b) |};
     McpStore.localStorage := McpStore.localStorage b;
     McpStore.fetched := McpStore.fetched b |}.

(** A session obeys the single-flight discipline when at most one update is
    in flight and the flag says whether one is. *)
Definition singleFlight (s : McpStore.Session) : Prop :=
  match McpStore.inFlight s with
  | [] => McpStore.isUpdatingConfig (McpStore.store (McpStore.browser s)) = false
  | [_] => McpStore.isUpdatingConfig (McpStore.store (McpStore.browser s)) = true
  | _ => False
  end.

(** The number of [updateSettings] calls among some events. *)
Fixpoint calls (events : list McpStore.Event) : nat :=
  match events with
  | [] => 0
  | McpStore.CallUpdateSettings _ :: rest => S (calls rest)
  | McpStore.DiscoverySettles _ :: rest => calls rest
  end.

(** A session that starts from a browser state, with nothing in flight. *)
Definition sessionOf (b : McpStore.Browser) : McpStore.Session :=
  {| McpStore.browser := b; McpStore.inFlight := []; McpStore.outcomes := [] |}.

(** [sub] occurs somewhere in [s]. *)
Definition contains (s sub : string) : Prop := ∃ pre post, s = pre +:+ sub +:+ post.

(** A fresh page whose [localStorage] holds one persisted record. *)
Definition freshBrowser (record : string) : McpStore.Browser :=
  {| McpStore.store := McpStore.initialStore;
     McpStore.localStorage := {[McpStore.MCP_SETTINGS_KEY := record]};
     McpStore.fetched := [] |}.

(** The first character of a serialized value: it starts a JSON value. *)
Definition startsValue (s : string) : Prop :=
  match s with
  | EmptyString => False
  | String c _ =>
      c ∈ ["n"; "t"; "f"; dquote; "["; "{"; "-";
           "0"; "1"; "2"; "3"; "4"; "5"; "6"; "7"; "8"; "9"]%char
  end.

(** What the round trip asks of one value, at any continuation and fuel. *)
Definition reads_back (v : json) : Prop :=
  ∀ k fuel, delimited k → weight v ≤ fuel →
            Json.read_value fuel (Json.write_value v k) = Some (v, k).

(** The command validator as the specification words it: a command is
    accepted when it starts, ignoring case, with one of the verbs. *)
Definition equalIgnoringCase (a b : string) : Prop := toLowerCase a = toLowerCase b.

Definition startsWithIgnoringCase (command verb : string) : Prop :=
  ∃ p rest, command = p +:+ rest ∧ equalIgnoringCase p verb.

Definition acceptedBy (verbs : list string) (command : string) : Prop :=
  ∃ verb, verb ∈ verbs ∧ startsWithIgnoringCase command verb.

(** The verbs as the specification lists them. *)
Definition specifiedVerbs : list string :=
  ["version"; "auth"; "repo"; "issue"; "pr"; "workflow"; "api"; "gist"; "secret";
   "key-management"].

(** The process the gateway is expected to start for a verb: the quoted
    Windows executable, the verb, the arguments; the overrides laid over the
    ambient environment; the given working directory or the configured one. *)
Definition gatewayInvocation `{Host} (command : string) (args : list string)
    (env : gmap string string) (cwd : option string) : Invocation :=
  {| fullCommand := quoted "C:\users\neal7\devtools\github cli\bin\gh.exe" +:+
                    " " +:+ command +:+ " " +:+ join " " args;
     fullEnv := env ∪ process_env;
     workingDir := or_string cwd "C:\users\neal7\devtools\github cli" |}.

(** The state after the processes [invs] have been started and the world has
    become [w]. *)
Definition spawnedAfter `{Host} (s : Sys) (w : World) (invs : list Invocation) : Sys :=
  {| world := w; spawned := spawned s ++ invs |}.

(** A POST request whose body is the given [GitHubCLIExecRequest]. *)
Definition post (command : string) (args : option (list string))
    (env : option (gmap string string)) (cwd : option string) : Exec.Request :=
  {| Exec.method := "POST";
     Exec.request_json :=
       Normal {| Exec.req_command := command; Exec.req_args := args;
                 Exec.req_env := env; Exec.req_cwd := cwd |} |}.

(** The process the status route starts for an argument list: the quoted
    Windows executable and the arguments, in the configured directory. *)
Definition statusInvocation `{Host} (args : list string) (env : gmap string string)
    : Invocation :=
  {| fullCommand := quoted "C:\users\neal7\devtools\github cli\bin\gh.exe" +:+
                    " " +:+ join " " args;
     fullEnv := env ∪ process_env;
     workingDir := "C:\users\neal7\devtools\github cli" |}.

(** What the gateway's runner makes of the outcome of its process. *)
Definition resultOf (command : string) (args : list string) (o : ExecOutcome)
    : Exec.GitHubCLIExecResponse :=
  match o with
  | Returned out =>
      {| Exec.success := true; Exec.command := command +:+ " " +:+ join " " args;
         Exec.output := trim out; Exec.error := None; Exec.version := None;
         Exec.user := None |}
  | Thrown e =>
      {| Exec.success := false; Exec.command := command +:+ " " +:+ join " " args;
         Exec.output := or_string (err_stdout e) "";
         Exec.error := Some (or_string (err_message e) "Command execution failed");
         Exec.version := None; Exec.user := None |}
  end.

(** The version branch: the token is attached to a successful result. *)
Definition withVersion (r : Exec.GitHubCLIExecResponse) : Exec.GitHubCLIExecResponse :=
  if Exec.success r
  then match Exec.versionMatch (Exec.output r) with
       | Some v => Exec.set_version (Some v) r
       | None => r
       end
  else r.

(** The identity branch: what the outcome of [api user] adds to the result. *)
Definition withIdentity `{Host} (o : ExecOutcome) (r : Exec.GitHubCLIExecResponse)
    : Exec.GitHubCLIExecResponse :=
  match o with
  | Returned out =>
      match Exec.parseUser (trim out) with
      | Some u => Exec.set_user (Some u) r
      | None => r
      end
  | Thrown _ => r
  end.

(** The route on an allowed command, written over the outcomes of the
    processes it starts. *)
Definition gatewayRun `{Host} (command : string) (args : list string)
    (env : gmap string string) (cwd : option string) (s : Sys)
    : Exec.HttpResponse * Sys :=
  let inv1 := gatewayInvocation command args env cwd in
  let o1 := (execSync inv1 (world s)).1 in
  let w1 := (execSync inv1 (world s)).2 in
  let r1 := resultOf command args o1 in
  if decide (command = "version") then
    (Exec.json_reply (withVersion r1), spawnedAfter s w1 [inv1])
  else if decide (command = "auth status") then
    match o1 with
    | Returned _ =>
        let inv2 := gatewayInvocation "api" ["user"] env cwd in
        (Exec.json_reply (withIdentity (execSync inv2 w1).1 r1),
         spawnedAfter s (execSync inv2 w1).2 [inv1; inv2])
    | Thrown _ => (Exec.json_reply r1, spawnedAfter s w1 [inv1])
    end
  else (Exec.json_reply r1, spawnedAfter s w1 [inv1]).

(** The command line handed to [execSync] starts with the quoted executable
    of the gateway.  The line is run by a shell, so this says how the line
    begins, not which programs the shell goes on to start. *)
Definition runsGh (inv : Invocation) : Prop :=
  ∃ rest, fullCommand inv
          = quoted "C:\users\neal7\devtools\github cli\bin\gh.exe" +:+ " " +:+ rest.

(** [/gh version (\S+)/] read declaratively: an occurrence of the literal
    followed by a non-empty token without white space; the match is the
    leftmost occurrence, with the token as long as it can be. *)
Fixpoint allNonSpace (s : string) : bool :=
  match s with
  | EmptyString => true
  | String c r => negb (isWhiteSpace c) && allNonSpace r
  end.

Definition occursAt (text pre tok post : string) : Prop :=
  text = pre +:+ "gh version " +:+ tok +:+ post ∧ tok ≠ "" ∧ allNonSpace tok = true.

Definition tokenEnds (post : string) : Prop :=
  match post with
  | EmptyString => True
  | String c _ => isWhiteSpace c = true
  end.

Definition regexMatch (text tok : string) : Prop :=
  ∃ pre post,
    occursAt text pre tok post ∧ tokenEnds post ∧
    ∀ pre' tok' post', occursAt text pre' tok' post' →
                       String.length pre ≤ String.length pre'.

(** The text [{"login":"alice","name":"Alice A"}]. *)
Definition aliceJson : string :=
  "{" +:+ quoted "login" +:+ ":" +:+ quoted "alice" +:+ "," +:+
  quoted "name" +:+ ":" +:+ quoted "Alice A" +:+ "}".

(** A component that shows alice as signed in, with nothing loading. *)
Definition signedIn : GitHubCLIConfig.State :=
  {| GitHubCLIConfig.isExpanded := true; GitHubCLIConfig.isLoading := false;
     GitHubCLIConfig.status :=
       {| GitHubCLIConfig.isInstalled := Some (JBool true);
          GitHubCLIConfig.isAuthenticated := Some (JBool true);
          GitHubCLIConfig.version := Some (JStr "2.40.0");
          GitHubCLIConfig.user :=
            Some (JObj [("login", JStr "alice"); ("name", JStr "Alice A")]);
          GitHubCLIConfig.error := None |};
     GitHubCLIConfig.cliPath := "/usr/local/bin/gh";
     GitHubCLIConfig.testOutput := Some (JStr "") |}.

(** * Properties *)

(** ** Strings *)

Lemma app_cons (c : ascii) (s t : string) : String c s +:+ t = String c (s +:+ t).
Proof. reflexivity. Qed.

Lemma app_empty_l (s : string) : "" +:+ s = s.
Proof. reflexivity. Qed.

Lemma app_empty_r (s : string) : s +:+ "" = s.
Proof. induction s as [|c s IH]; [done|]. by rewrite app_cons, IH. Qed.

Lemma app_assoc_s (a b c : string) : (a +:+ b) +:+ c = a +:+ (b +:+ c).
Proof. induction a as [|x a IH]; [done|]. by rewrite !app_cons, IH. Qed.

Lemma stripPrefix_Some (p s rest : string) :
  stripPrefix p s = Some rest ↔ s = p +:+ rest.
Proof.
  revert s. induction p as [|b p IH]; intros s; simpl.
  - rewrite app_empty_l. split; [by intros [= ->] | by intros ->].
  - destruct s as [|a s]; [by split|].
    rewrite app_cons. case_decide as Hab.
    + subst. rewrite IH. split; [by intros -> | by intros [= ->]].
    + split; [done | intros [= -> _]; done].
Qed.

Lemma startsWith_stripPrefix (s p : string) :
  startsWith s p = true ↔ is_Some (stripPrefix p s).
Proof.
  revert s. induction p as [|b p IH]; intros s; simpl.
  - split; [by intros _; eexists | done].
  - destruct s as [|a s]; [split; [done | by intros [? ?]]|].
    case_decide; [apply IH | split; [done | by intros [? ?]]].
Qed.

Lemma startsWith_spec (s p : string) : startsWith s p = true ↔ ∃ rest, s = p +:+ rest.
Proof.
  rewrite startsWith_stripPrefix. unfold is_Some.
  by setoid_rewrite stripPrefix_Some.
Qed.

Lemma toLowerCase_app (a b : string) :
  toLowerCase (a +:+ b) = toLowerCase a +:+ toLowerCase b.
Proof. induction a as [|c a IH]; [done|]. rewrite app_cons. simpl. by rewrite IH. Qed.

(** A split of the lowered string is the lowering of a split of the string. *)
Lemma toLowerCase_split (s x y : string) :
  toLowerCase s = x +:+ y →
  ∃ p rest, s = p +:+ rest ∧ toLowerCase p = x ∧ toLowerCase rest = y.
Proof.
  revert s. induction x as [|c x IH]; intros s Hs.
  - exists "", s. by rewrite !app_empty_l in *.
  - destruct s as [|a s]; [done|]. rewrite app_cons in Hs. simpl in Hs.
    injection Hs as Ha Hs. destruct (IH _ Hs) as (p & rest & -> & Hp & Hr).
    exists (String a p), rest. rewrite app_cons. simpl. by rewrite Ha, Hp.
Qed.

Lemma isAllowed_spec (command : string) :
  Exec.isAllowed command = true ↔
  ∃ verb, verb ∈ Exec.allowedCommands ∧ startsWith (toLowerCase command) verb = true.
Proof.
  unfold Exec.isAllowed. rewrite existsb_exists.
  by setoid_rewrite <- list_elem_of_In.
Qed.

Lemma allowedCommands_lower_case :
  Forall (λ verb, toLowerCase verb = verb) Exec.allowedCommands.
Proof. repeat constructor. Qed.

Lemma isAllowed_acceptedBy (command : string) :
  Exec.isAllowed command = true ↔ acceptedBy Exec.allowedCommands command.
Proof.
  rewrite isAllowed_spec. unfold acceptedBy, startsWithIgnoringCase, equalIgnoringCase.
  pose proof allowedCommands_lower_case as Hlow. rewrite Forall_forall in Hlow.
  split.
  - intros (verb & Hin & Hst). exists verb. split; [done|].
    apply startsWith_spec in Hst as [rest Hst].
    apply toLowerCase_split in Hst as (p & rest' & -> & Hp & _).
    exists p, rest'. by rewrite Hp, (Hlow _ Hin).
  - intros (verb & Hin & p & rest & -> & Hp). exists verb. split; [done|].
    apply startsWith_spec. exists (toLowerCase rest).
    by rewrite toLowerCase_app, Hp, (Hlow _ Hin).
Qed.

(** ** The execution gateway *)

Section Gateway.
Context `{Host}.

Lemma action_post (body : Exec.GitHubCLIExecRequest) (s : Sys) :
  Exec.isAllowed (Exec.req_command body) = false →
  Exec.action {| Exec.method := "POST"; Exec.request_json := Normal body |} s =
  (Exec.json_reply
     {| Exec.success := false;
        Exec.command := Exec.req_command body +:+ " " +:+
                        join " " (default [] (Exec.req_args body));
        Exec.output := "";
        Exec.error := Some ("Command '" +:+ Exec.req_command body +:+
                            "' is not allowed for security reasons");
        Exec.version := None; Exec.user := None |}, s).
Proof. intros Hno. unfold Exec.action. simpl. by rewrite Hno. Qed.

End Gateway.

(** C7, as stated, fails: a command starting with the verb [key-management]
    of the specification is accepted by the specification's wording and
    rejected by the validator. *)
Lemma key_management_is_rejected :
  ¬ (Exec.isAllowed "key-management list" = true ↔
     acceptedBy specifiedVerbs "key-management list").
Proof.
  intros [_ Hacc]. enough (Exec.isAllowed "key-management list" = true) by done.
  apply Hacc. exists "key-management". split.
  - unfold specifiedVerbs. set_solver.
  - by exists "key-management", " list".
Qed.

(** C7, amended: the validator accepts a command in the ASCII range exactly
    when it starts, ignoring the case of the letters A to Z, with one of
    version, auth, repo, issue, pr, workflow, api, gist, secret, ssh-key; a
    rejected command is answered by an ordinary reply (status 200, success
    false), not by a fault. *)
Theorem validator_accepts_iff_allowlisted :
  (∀ command : string,
     isAscii command = true →
     Exec.isAllowed command = true ↔
     acceptedBy ["version"; "auth"; "repo"; "issue"; "pr"; "workflow"; "api";
                 "gist"; "secret"; "ssh-key"] command) ∧
  (∀ (H : Host) (body : Exec.GitHubCLIExecRequest) (s : Sys),
     isAscii (Exec.req_command body) = true →
     Exec.isAllowed (Exec.req_command body) = false →
     ∃ r, fst (Exec.action {| Exec.method := "POST";
                              Exec.request_json := Normal body |} s)
          = {| Exec.status := 200; Exec.body := Exec.ExecBody r |} ∧
          Exec.success r = false).
Proof.
  split.
  - intros command _. apply isAllowed_acceptedBy.
  - intros H body s _ Hno. rewrite (action_post body s Hno). by eexists.
Qed.

Lemma validator_accepts_iff_allowlisted_witness :
  Exec.isAllowed "SSH-KEY list" = true ∧
  Exec.isAllowed "key-management" = false ∧
  ∃ r, fst (Exec.action (H := scriptedHost)
              {| Exec.method := "POST";
                 Exec.request_json :=
                   Normal {| Exec.req_command := "key-management";
                             Exec.req_args := None; Exec.req_env := None;
                             Exec.req_cwd := None |} |}
              (scriptedSys []))
       = {| Exec.status := 200; Exec.body := Exec.ExecBody r |} ∧
       Exec.success r = false.
Proof.
  split; [reflexivity|]. split; [reflexivity|].
  apply (proj2 validator_accepts_iff_allowlisted scriptedHost); reflexivity.
Defined.

(** C1: a command in the ASCII range that matches no allowlist prefix is
    answered with success false, an empty output and an error naming the
    command, and the state comes back as it was: nothing is spawned. *)
Theorem disallowed_command_spawns_nothing `{Host}
    (body : Exec.GitHubCLIExecRequest) (s : Sys) :
  isAscii (Exec.req_command body) = true →
  Exec.isAllowed (Exec.req_command body) = false →
  let reply := Exec.action {| Exec.method := "POST";
                              Exec.request_json := Normal body |} s in
  fst reply =
    Exec.json_reply
      {| Exec.success := false;
         Exec.command := Exec.req_command body +:+ " " +:+
                         join " " (default [] (Exec.req_args body));
         Exec.output := "";
         Exec.error := Some ("Command '" +:+ Exec.req_command body +:+
                             "' is not allowed for security reasons");
         Exec.version := None; Exec.user := None |} ∧
  spawned (snd reply) = spawned s ∧
  snd reply = s.
Proof. intros _ Hno reply. subst reply. by rewrite (action_post body s Hno). Qed.

Lemma disallowed_command_spawns_nothing_witness :
  let body := {| Exec.req_command := "rm -rf /"; Exec.req_args := Some ["now"];
                 Exec.req_env := None; Exec.req_cwd := None |} in
  let s := scriptedSys [Returned "never read"] in
  isAscii (Exec.req_command body) = true ∧
  Exec.isAllowed (Exec.req_command body) = false ∧
  fst (Exec.action (H := scriptedHost)
         {| Exec.method := "POST"; Exec.request_json := Normal body |} s) =
    Exec.json_reply
      {| Exec.success := false; Exec.command := "rm -rf / now"; Exec.output := "";
         Exec.error := Some "Command 'rm -rf /' is not allowed for security reasons";
         Exec.version := None; Exec.user := None |} ∧
  spawned (snd (Exec.action (H := scriptedHost)
         {| Exec.method := "POST"; Exec.request_json := Normal body |} s)) = [].
Proof.
  intros body s. split; [reflexivity|]. split; [reflexivity|].
  pose proof (disallowed_command_spawns_nothing (H := scriptedHost) body s eq_refl
                eq_refl) as (Hreply & Hspawned & _).
  split; [exact Hreply | exact Hspawned].
Defined.

(** ** The version pattern *)

Lemma nonSpaceRun_split (s : string) :
  ∃ post, s = Exec.nonSpaceRun s +:+ post ∧ tokenEnds post ∧
          allNonSpace (Exec.nonSpaceRun s) = true.
Proof.
  induction s as [|c s (post & Hs & Hend & Hall)]; simpl.
  - by exists "".
  - destruct (isWhiteSpace c) eqn:Hc.
    + exists (String c s). by rewrite app_empty_l.
    + exists post. rewrite app_cons, <- Hs. simpl. by rewrite Hc.
Qed.

Lemma nonSpaceRun_token (tok post : string) :
  tok ≠ "" → allNonSpace tok = true → Exec.nonSpaceRun (tok +:+ post) ≠ "".
Proof.
  destruct tok as [|c tok]; [done|]. intros _ Hall. rewrite app_cons. simpl in *.
  apply andb_prop in Hall as [Hc _]. apply negb_true_iff in Hc. by rewrite Hc.
Qed.

Lemma matchHere_Some (text tok : string) :
  Exec.matchHere text = Some tok →
  ∃ post, occursAt text "" tok post ∧ tokenEnds post.
Proof.
  unfold Exec.matchHere. destruct (stripPrefix _ text) as [rest|] eqn:Hrest; [|done].
  apply stripPrefix_Some in Hrest.
  destruct (nonSpaceRun_split rest) as (post & Hs & Hend & Hall).
  destruct (Exec.nonSpaceRun rest) as [|c run] eqn:Hrun; [done|].
  intros [= <-]. exists post. split; [|done].
  split; [|done]. by rewrite app_empty_l, <- Hs.
Qed.

Lemma matchHere_None (text tok post : string) :
  Exec.matchHere text = None → ¬ occursAt text "" tok post.
Proof.
  unfold Exec.matchHere. intros Hnone (Htext & Hne & Hall).
  rewrite app_empty_l in Htext. apply stripPrefix_Some in Htext.
  rewrite Htext in Hnone.
  pose proof (nonSpaceRun_token tok post Hne Hall) as Hrun.
  by destruct (Exec.nonSpaceRun (tok +:+ post)).
Qed.

Lemma occursAt_cons (c : ascii) (text pre tok post : string) :
  occursAt (String c text) (String c pre) tok post ↔ occursAt text pre tok post.
Proof.
  unfold occursAt. rewrite app_cons.
  split; intros (Ht & ? & ?); (split; [|done]); [by injection Ht | by rewrite Ht].
Qed.

Lemma versionMatch_Some (text tok : string) :
  Exec.versionMatch text = Some tok → regexMatch text tok.
Proof.
  revert tok. induction text as [|c text IH]; intros tok.
  - by cbv.
  - cbn [Exec.versionMatch]. destruct (Exec.matchHere (String c text)) as [t|] eqn:Hhere.
    + intros [= ->]. apply matchHere_Some in Hhere as (post & Hocc & Hend).
      exists "", post. split; [done|]. split; [done|]. intros; simpl; lia.
    + intros Hrec. destruct (IH _ Hrec) as (pre & post & Hocc & Hend & Hleft).
      exists (String c pre), post. split; [by apply occursAt_cons|]. split; [done|].
      intros pre' tok' post' Hocc'. destruct pre' as [|c' pre'].
      * by apply matchHere_None with (tok := tok') (post := post') in Hhere.
      * assert (c' = c) as -> by (destruct Hocc' as [Ht _]; by injection Ht).
        apply (proj1 (occursAt_cons _ _ _ _ _)), Hleft in Hocc'. simpl. lia.
Qed.

Lemma versionMatch_None (text : string) :
  Exec.versionMatch text = None ↔ ¬ ∃ pre tok post, occursAt text pre tok post.
Proof.
  split.
  - induction text as [|c text IH].
    + intros _ (pre & tok & post & Ht & _). by destruct pre.
    + cbn [Exec.versionMatch].
      destruct (Exec.matchHere (String c text)) as [t|] eqn:Hhere; [done|].
      intros Hrec (pre & tok & post & Hocc). destruct pre as [|c' pre].
      * by apply matchHere_None with (tok := tok) (post := post) in Hhere.
      * assert (c' = c) as -> by (destruct Hocc as [Ht _]; by injection Ht).
        apply (proj1 (occursAt_cons _ _ _ _ _)) in Hocc. apply (IH Hrec). eauto.
  - intros Hnone. destruct (Exec.versionMatch text) as [tok|] eqn:Hm; [|done].
    apply versionMatch_Some in Hm as (pre & post & Hocc & _). destruct Hnone. eauto.
Qed.

Lemma app_length_inj (a a' b b' : string) :
  String.length a = String.length a' → a +:+ b = a' +:+ b' → a = a' ∧ b = b'.
Proof.
  revert a'. induction a as [|c a IH]; intros [|c' a'] Hlen Heq; try done.
  rewrite !app_cons in Heq. injection Heq as -> Heq. injection Hlen as Hlen.
  destruct (IH _ Hlen Heq) as [-> ->]. done.
Qed.

Lemma token_unique (tok post tok' post' : string) :
  allNonSpace tok = true → allNonSpace tok' = true →
  tokenEnds post → tokenEnds post' →
  tok +:+ post = tok' +:+ post' → tok = tok'.
Proof.
  revert tok'. induction tok as [|c tok IH]; intros [|c' tok'] Hall Hall' Hend Hend' Heq.
  - done.
  - rewrite app_empty_l, app_cons in Heq. subst post. simpl in *.
    apply andb_prop in Hall' as [Hc _]. by rewrite Hend in Hc.
  - rewrite app_empty_l, app_cons in Heq. subst post'. simpl in *.
    apply andb_prop in Hall as [Hc _]. by rewrite Hend' in Hc.
  - rewrite !app_cons in Heq. injection Heq as -> Heq. simpl in *.
    apply andb_prop in Hall as [_ Hall]. apply andb_prop in Hall' as [_ Hall'].
    f_equal. eauto.
Qed.

Lemma versionMatch_iff (text tok : string) :
  Exec.versionMatch text = Some tok ↔ regexMatch text tok.
Proof.
  split; [apply versionMatch_Some|].
  intros (pre & post & Hocc & Hend & Hleft).
  destruct (Exec.versionMatch text) as [tok'|] eqn:Hm.
  - apply versionMatch_Some in Hm as (pre' & post' & Hocc' & Hend' & Hleft').
    pose proof (Hleft _ _ _ Hocc'). pose proof (Hleft' _ _ _ Hocc).
    destruct Hocc as (Ht & _ & Hall), Hocc' as (Ht' & _ & Hall').
    rewrite Ht' in Ht. apply app_length_inj in Ht as [_ Ht]; [|lia].
    apply app_length_inj in Ht as [_ Ht]; [|done].
    f_equal. exact (token_unique _ _ _ _ Hall' Hall Hend' Hend Ht).
  - apply versionMatch_None in Hm. destruct Hm. eauto.
Qed.

(** ** Running the gateway *)

Section GatewayRuns.
Context `{Host}.

Lemma execute_returned command args env cwd (s : Sys) out w :
  execSync (gatewayInvocation command args env cwd) (world s) = (Returned out, w) →
  Exec.executeGitHubCLICommand command args env cwd s =
  ({| Exec.success := true; Exec.command := command +:+ " " +:+ join " " args;
      Exec.output := trim out; Exec.error := None; Exec.version := None;
      Exec.user := None |},
   spawnedAfter s w [gatewayInvocation command args env cwd]).
Proof.
  intros Hrun. unfold Exec.executeGitHubCLICommand, mbind, Proc_bind, spawn.
  unfold gatewayInvocation in Hrun. simpl in *. by rewrite Hrun.
Qed.

Lemma execute_thrown command args env cwd (s : Sys) e w :
  execSync (gatewayInvocation command args env cwd) (world s) = (Thrown e, w) →
  Exec.executeGitHubCLICommand command args env cwd s =
  ({| Exec.success := false; Exec.command := command +:+ " " +:+ join " " args;
      Exec.output := or_string (err_stdout e) "";
      Exec.error := Some (or_string (err_message e) "Command execution failed");
      Exec.version := None; Exec.user := None |},
   spawnedAfter s w [gatewayInvocation command args env cwd]).
Proof.
  intros Hrun. unfold Exec.executeGitHubCLICommand, mbind, Proc_bind, spawn.
  unfold gatewayInvocation in Hrun. simpl in *. by rewrite Hrun.
Qed.

Lemma action_version args env cwd (s : Sys) :
  Exec.action (post "version" args env cwd) s =
  let '(result, s') :=
    Exec.executeGitHubCLICommand "version" (default [] args) (default ∅ env) cwd s in
  (Exec.json_reply
     (if Exec.success result
      then match Exec.versionMatch (Exec.output result) with
           | Some v => Exec.set_version (Some v) result
           | None => result
           end
      else result), s').
Proof. reflexivity. Qed.

Lemma action_auth_status args env cwd :
  Exec.action (post "auth status" args env cwd) =
  (result ← Exec.executeGitHubCLICommand "auth status" (default [] args)
              (default ∅ env) cwd;
   if Exec.success result then
     userResult ← Exec.executeGitHubCLICommand "api" ["user"] (default ∅ env) cwd;
     mret (Exec.json_reply
             (if Exec.success userResult
              then match Exec.parseUser (Exec.output userResult) with
                   | Some u => Exec.set_user (Some u) result
                   | None => result
                   end
              else result))
   else mret (Exec.json_reply result)).
Proof. reflexivity. Qed.

End GatewayRuns.

(** C8: a successful [version] run whose output is in the ASCII range
    answers with the trimmed output and, as version, capture group 1 of the
    leftmost match of [gh version (\S+)] in it, or no version when the
    pattern occurs nowhere; the reply is successful either way.  On
    [gh version 2.40.0 (2023-01-01)] the token is [2.40.0]. *)
Theorem version_token_is_extracted :
  (∀ (H : Host) args env cwd (s : Sys) out w,
     execSync (gatewayInvocation "version" (default [] args) (default ∅ env) cwd)
              (world s) = (Returned out, w) →
     isAscii out = true →
     fst (Exec.action (post "version" args env cwd) s) =
       Exec.json_reply
         {| Exec.success := true;
            Exec.command := "version" +:+ " " +:+ join " " (default [] args);
            Exec.output := trim out; Exec.error := None;
            Exec.version := Exec.versionMatch (trim out); Exec.user := None |}) ∧
  (∀ text tok, isAscii text = true →
               Exec.versionMatch text = Some tok ↔ regexMatch text tok) ∧
  (∀ text, isAscii text = true →
           Exec.versionMatch text = None ↔
           ¬ ∃ pre tok post, occursAt text pre tok post) ∧
  Exec.versionMatch "gh version 2.40.0 (2023-01-01)" = Some "2.40.0".
Proof.
  split; [|split; [intros text tok _; apply versionMatch_iff
                  |split; [intros text _; apply versionMatch_None | done]]].
  intros H args env cwd s out w Hrun _.
  rewrite action_version, (execute_returned _ _ _ _ _ _ _ Hrun). cbn.
  by destruct (Exec.versionMatch (trim out)).
Qed.

Lemma version_token_is_extracted_witness :
  fst (Exec.action (H := scriptedHost) (post "version" None None None)
         (scriptedSys [Returned "gh version 2.40.0 (2023-01-01)
https://github.com/cli/cli/releases/tag/v2.40.0
"])) =
    Exec.json_reply
      {| Exec.success := true; Exec.command := "version ";
         Exec.output := "gh version 2.40.0 (2023-01-01)
https://github.com/cli/cli/releases/tag/v2.40.0";
         Exec.error := None; Exec.version := Some "2.40.0"; Exec.user := None |}.
Proof.
  exact (proj1 version_token_is_extracted scriptedHost None None None
           (scriptedSys [Returned "gh version 2.40.0 (2023-01-01)
https://github.com/cli/cli/releases/tag/v2.40.0
"]) _ _ eq_refl eq_refl).
Defined.

(** C2: when [auth status] succeeds, the gateway starts exactly one more
    process, [api user], with the same environment and working directory;
    when that one succeeds with the text [{"login":"alice","name":"Alice A"}],
    the reply carries the identity login alice, name Alice A. *)
Theorem auth_status_chains_identity `{Host} args env cwd (s : Sys) out1 w1 :
  let primary := gatewayInvocation "auth status" (default [] args) (default ∅ env) cwd in
  let chained := gatewayInvocation "api" ["user"] (default ∅ env) cwd in
  let reply := Exec.action (post "auth status" args env cwd) s in
  execSync primary (world s) = (Returned out1, w1) →
  spawned (snd reply) = spawned s ++ [primary; chained] ∧
  fullEnv chained = fullEnv primary ∧ workingDir chained = workingDir primary ∧
  ∀ out2 w2,
    execSync chained w1 = (Returned out2, w2) →
    trim out2 = aliceJson →
    JSON_parse aliceJson =
      Normal (JObj [("login", JStr "alice"); ("name", JStr "Alice A")]) →
    fst reply =
      Exec.json_reply
        {| Exec.success := true;
           Exec.command := "auth status" +:+ " " +:+ join " " (default [] args);
           Exec.output := trim out1; Exec.error := None; Exec.version := None;
           Exec.user := Some {| Exec.login := Some (JStr "alice");
                                Exec.name := Some (JStr "Alice A") |} |}.
Proof.
  intros primary chained reply Hrun1. subst primary chained reply.
  rewrite action_auth_status. unfold mbind, Proc_bind.
  rewrite (execute_returned _ _ _ _ _ _ _ Hrun1). cbn [Exec.success].
  split; [|split; [done|split; [done|]]].
  - destruct (execSync (gatewayInvocation "api" ["user"] (default ∅ env) cwd) w1)
      as [[out2|e] w2] eqn:Hrun2.
    + rewrite (execute_returned _ _ _ _ (spawnedAfter s w1 _) _ _ Hrun2).
      cbn. by rewrite <- app_assoc.
    + rewrite (execute_thrown _ _ _ _ (spawnedAfter s w1 _) _ _ Hrun2).
      cbn. by rewrite <- app_assoc.
  - intros out2 w2 Hrun2 Hout Hparse.
    rewrite (execute_returned _ _ _ _ (spawnedAfter s w1 _) _ _ Hrun2).
    cbn. unfold Exec.parseUser. by rewrite Hout, Hparse.
Qed.

Lemma auth_status_chains_identity_witness :
  fst (Exec.action (H := scriptedHost) (post "auth status" None None None)
         (scriptedSys [Returned "Logged in to github.com as alice";
                       Returned (aliceJson +:+ " ")])) =
    Exec.json_reply
      {| Exec.success := true; Exec.command := "auth status ";
         Exec.output := "Logged in to github.com as alice";
         Exec.error := None; Exec.version := None;
         Exec.user := Some {| Exec.login := Some (JStr "alice");
                              Exec.name := Some (JStr "Alice A") |} |}.
Proof.
  pose proof (auth_status_chains_identity (H := scriptedHost) None None None
                (scriptedSys [Returned "Logged in to github.com as alice";
                              Returned (aliceJson +:+ " ")]) _ _ eq_refl)
    as (_ & _ & _ & Hidentity).
  exact (Hidentity _ _ eq_refl eq_refl eq_refl).
Defined.



(** The chaining is tied to the verb [auth status] itself: with the verb
    [auth] and the argument [status] only one process is started and the
    reply carries no identity. *)
Remark auth_with_status_argument_does_not_chain `{Host} env cwd (s : Sys) out w :
  execSync (gatewayInvocation "auth" ["status"] (default ∅ env) cwd) (world s)
  = (Returned out, w) →
  Exec.action (post "auth" (Some ["status"]) env cwd) s =
  (Exec.json_reply
     {| Exec.success := true; Exec.command := "auth status";
        Exec.output := trim out; Exec.error := None; Exec.version := None;
        Exec.user := None |},
   spawnedAfter s w [gatewayInvocation "auth" ["status"] (default ∅ env) cwd]).
Proof.
  intros Hrun.
  change (Exec.action (post "auth" (Some ["status"]) env cwd))
    with (result ← Exec.executeGitHubCLICommand "auth" ["status"] (default ∅ env) cwd;
          mret (Exec.json_reply result)).
  unfold mbind, Proc_bind. by rewrite (execute_returned _ _ _ _ _ _ _ Hrun).
Qed.

(** ** The status route *)

Section StatusRuns.
Context `{Host}.

Lemma status_execute command args env (s : Sys) :
  Status.executeGitHubCLICommand command args env s =
  (match (execSync (statusInvocation args env) (world s)).1 with
   | Returned out =>
       {| Status.success := true; Status.output := trim out; Status.cmd_error := None |}
   | Thrown e =>
       {| Status.success := false; Status.output := or_string (err_stdout e) "";
          Status.cmd_error :=
            Some (or_string (err_message e) "Command execution failed") |}
   end,
   spawnedAfter s (execSync (statusInvocation args env) (world s)).2
     [statusInvocation args env]).
Proof.
  unfold Status.executeGitHubCLICommand, mbind, Proc_bind, spawn, statusInvocation.
  simpl. by destruct (execSync _ (world s)) as [[out|e] w].
Qed.

Lemma or_string_twice (m : option string) :
  or_string (Some (or_string m "Command execution failed")) "GitHub CLI not found"
  = or_string m "Command execution failed".
Proof. by destruct m as [[|c r]|]. Qed.

End StatusRuns.

(** C4: the loader is the three-state machine, stated for process output in
    the ASCII range.  A failed first call gives not installed, not
    authenticated, the failure text as error, no version and no identity, and
    nothing more is started.  A failed second call gives installed, not
    authenticated, the version, no identity, and the identity call is never
    started.  Two successes give installed and authenticated with the
    version, and the identity exactly when the third call succeeds and
    [JSON.parse] reads its trimmed output as a value other than [null]: the
    identity of an object is its members [login], [name] (the login when the
    name is not truthy) and [email]; that of any other value has the three
    fields undefined. *)
Theorem loader_is_three_state_machine `{Host} (s : Sys) :
  let check := statusInvocation [] ∅ in
  let auth := statusInvocation ["status"] ∅ in
  let identity := statusInvocation ["user"] ∅ in
  match execSync check (world s) with
  | (Thrown e, w1) =>
      Status.loader s =
      ({| Status.isInstalled := false; Status.isAuthenticated := false;
          Status.version := None; Status.user := None;
          Status.error := Some (or_string (err_message e) "Command execution failed") |},
       spawnedAfter s w1 [check])
  | (Returned out1, w1) =>
      isAscii out1 = true →
      match execSync auth w1 with
      | (Thrown _, w2) =>
          Status.loader s =
          ({| Status.isInstalled := true; Status.isAuthenticated := false;
              Status.version := Some (trim out1); Status.user := None;
              Status.error := None |},
           spawnedAfter s w2 [check; auth])
      | (Returned _, w2) =>
          match execSync identity w2 with
          | (Thrown _, w3) =>
              Status.loader s =
              ({| Status.isInstalled := true; Status.isAuthenticated := true;
                  Status.version := Some (trim out1); Status.user := None;
                  Status.error := None |},
               spawnedAfter s w3 [check; auth; identity])
          | (Returned out3, w3) =>
              isAscii out3 = true →
              Status.loader s =
              ({| Status.isInstalled := true; Status.isAuthenticated := true;
                  Status.version := Some (trim out1);
                  Status.user :=
                    match JSON_parse (trim out3) with
                    | Throw _ | Normal JNull => None
                    | Normal (JObj members) =>
                        Some {| Status.login := lookup_member "login" members;
                                Status.name :=
                                  if truthy (lookup_member "name" members)
                                  then lookup_member "name" members
                                  else lookup_member "login" members;
                                Status.email := lookup_member "email" members |}
                    | Normal _ =>
                        Some {| Status.login := None; Status.name := None;
                                Status.email := None |}
                    end;
                  Status.error := None |},
               spawnedAfter s w3 [check; auth; identity])
          end
      end
  end.
Proof.
  intros check auth identity. subst check auth identity.
  unfold Status.loader, mbind, Proc_bind. rewrite status_execute.
  destruct (execSync (statusInvocation [] ∅) (world s)) as [[out1|e1] w1]; cbn.
  - intros _. rewrite status_execute. cbn.
    destruct (execSync (statusInvocation ["status"] ∅) w1) as [[out2|e2] w2]; cbn.
    + rewrite status_execute. cbn.
      destruct (execSync (statusInvocation ["user"] ∅) w2) as [[out3|e3] w3]; cbn;
        unfold spawnedAfter; cbn; rewrite <- !app_assoc; [intros _|done].
      unfold Status.parseUser.
      by destruct (JSON_parse (trim out3)) as [[| | | | |]|].
    + unfold spawnedAfter; cbn. by rewrite <- !app_assoc.
  - change (match or_string (err_message e1) "Command execution failed" with
            | EmptyString => "GitHub CLI not found"
            | String c r => String c r
            end)
      with (or_string (Some (or_string (err_message e1) "Command execution failed"))
              "GitHub CLI not found").
    by rewrite or_string_twice.
Qed.

Lemma loader_is_three_state_machine_witness :
  (Status.loader (H := scriptedHost)
     (scriptedSys [Returned "gh version 2.40.0
"; Returned "Logged in to github.com"; Returned aliceJson])).1 =
  {| Status.isInstalled := true; Status.isAuthenticated := true;
     Status.version := Some "gh version 2.40.0";
     Status.user := Some {| Status.login := Some (JStr "alice");
                            Status.name := Some (JStr "Alice A");
                            Status.email := None |};
     Status.error := None |}.
Proof.
  exact (f_equal fst
           (loader_is_three_state_machine (H := scriptedHost)
              (scriptedSys [Returned "gh version 2.40.0
"; Returned "Logged in to github.com"; Returned aliceJson]) eq_refl eq_refl
            : Status.loader (H := scriptedHost) _ = (_, _))).
Defined.

(** The identity is read exactly when [JSON.parse] gives a value other than
    [null]. *)
Lemma status_parseUser_is_Some `{Host} (text : string) :
  is_Some (Status.parseUser text) ↔ ∃ v, JSON_parse text = Normal v ∧ v ≠ JNull.
Proof.
  unfold Status.parseUser. destruct (JSON_parse text) as [v|message].
  - destruct v; cbn;
      (split; [first [by intros [? ?] | intros _; by eexists]
              | first [by intros (v & [= <-] & ?) | by eexists]]).
  - split; [by intros [? ?] | by intros (? & ? & _)].
Qed.

(** The processes the loader starts: the check, and after a successful check
    the authentication call. *)
Lemma loader_spawned `{Host} (s : Sys) :
  match execSync (statusInvocation [] ∅) (world s) with
  | (Thrown _, _) =>
      spawned (snd (Status.loader s)) = spawned s ++ [statusInvocation [] ∅]
  | (Returned _, _) =>
      ∃ rest, spawned (snd (Status.loader s))
              = spawned s ++ statusInvocation [] ∅ :: statusInvocation ["status"] ∅ :: rest
  end.
Proof.
  unfold Status.loader, mbind, Proc_bind. rewrite status_execute.
  destruct (execSync (statusInvocation [] ∅) (world s)) as [[out1|e1] w1]; cbn; [|done].
  rewrite status_execute. cbn.
  destruct (execSync (statusInvocation ["status"] ∅) w1) as [[out2|e2] w2]; cbn.
  - rewrite status_execute. cbn. eexists. by rewrite <- !app_assoc.
  - eexists. by rewrite <- !app_assoc.
Qed.

(** C10: the status route's runner builds its command line from the quoted
    executable path and the arguments alone, whatever the command verb is;
    so the installation check runs the bare executable and the
    authentication check runs it with the single argument [status]. *)
Theorem status_runner_drops_the_verb `{Host} :
  (∀ command args env (s : Sys),
     spawned (snd (Status.executeGitHubCLICommand command args env s)) =
     spawned s ++
       [{| fullCommand := quoted "C:\users\neal7\devtools\github cli\bin\gh.exe" +:+
                          " " +:+ join " " args;
           fullEnv := env ∪ process_env;
           workingDir := "C:\users\neal7\devtools\github cli" |}]) ∧
  (∀ command command' args env (s : Sys),
     Status.executeGitHubCLICommand command args env s =
     Status.executeGitHubCLICommand command' args env s) ∧
  (∀ s : Sys,
     let check := statusInvocation [] ∅ in
     let auth := statusInvocation ["status"] ∅ in
     fullCommand check =
       quoted "C:\users\neal7\devtools\github cli\bin\gh.exe" +:+ " " ∧
     fullCommand auth =
       quoted "C:\users\neal7\devtools\github cli\bin\gh.exe" +:+ " status" ∧
     match execSync check (world s) with
     | (Thrown _, _) => spawned (snd (Status.loader s)) = spawned s ++ [check]
     | (Returned _, _) =>
         ∃ rest, spawned (snd (Status.loader s)) = spawned s ++ check :: auth :: rest
     end).
Proof.
  split; [|split].
  - intros. by rewrite status_execute.
  - intros. by rewrite !status_execute.
  - intros s check auth. split; [done|]. split; [done|]. apply loader_spawned.
Qed.

(** ** The settings store *)

Section StoreRuns.
Context (isBrowser : bool) (JSON_parse : string → Completion json).

Local Abbreviation step := (McpStore.step isBrowser JSON_parse).
Local Abbreviation run := (McpStore.run isBrowser JSON_parse).

(** What a session does next depends on its browser and its requests in
    flight only, not on the outcomes already recorded. *)
Lemma step_same_view (e : McpStore.Event) (s s' : McpStore.Session) :
  McpStore.browser s = McpStore.browser s' →
  McpStore.inFlight s = McpStore.inFlight s' →
  McpStore.browser (step s e) = McpStore.browser (step s' e) ∧
  McpStore.inFlight (step s e) = McpStore.inFlight (step s' e).
Proof.
  intros Hb Hf. destruct e as [newSettings|o]; cbn; rewrite <- Hb, <- Hf.
  - by destruct (McpStore.updateSettings_call newSettings (McpStore.browser s))
      as [b [r|k]].
  - destruct (McpStore.inFlight s) as [|k rest] eqn:Hs; [by rewrite Hs|].
    by destruct (McpStore.updateSettings_resume _ _ k o (McpStore.browser s)).
Qed.

Lemma run_same_view (events : list McpStore.Event) (s s' : McpStore.Session) :
  McpStore.browser s = McpStore.browser s' →
  McpStore.inFlight s = McpStore.inFlight s' →
  McpStore.browser (run s events) = McpStore.browser (run s' events) ∧
  McpStore.inFlight (run s events) = McpStore.inFlight (run s' events).
Proof.
  revert s s'. induction events as [|e events IH]; intros s s' Hb Hf; [done|].
  cbn [McpStore.run foldl]. destruct (step_same_view e s s' Hb Hf). by apply IH.
Qed.

Lemma updateSettings_call_busy (newSettings : McpStore.MCPSettings)
    (b : McpStore.Browser) :
  McpStore.isUpdatingConfig (McpStore.store b) = true →
  McpStore.updateSettings_call newSettings b = (b, McpStore.Finished McpStore.Resolved).
Proof. intros Hbusy. unfold McpStore.updateSettings_call. by rewrite Hbusy. Qed.

Lemma updateSettings_call_sets_flag (newSettings : McpStore.MCPSettings)
    (b : McpStore.Browser) :
  McpStore.isUpdatingConfig
    (McpStore.store (McpStore.updateSettings_call newSettings b).1) = true.
Proof.
  unfold McpStore.updateSettings_call.
  by destruct (McpStore.isUpdatingConfig (McpStore.store b)) eqn:Hflag.
Qed.

Lemma step_call_sets_flag (newSettings : McpStore.MCPSettings) (s : McpStore.Session) :
  McpStore.isUpdatingConfig
    (McpStore.store (McpStore.browser
       (step s (McpStore.CallUpdateSettings newSettings)))) = true.
Proof.
  pose proof (updateSettings_call_sets_flag newSettings (McpStore.browser s)) as Hflag.
  cbn. by destruct (McpStore.updateSettings_call newSettings (McpStore.browser s))
    as [b [r|k]].
Qed.

Lemma step_call_busy (newSettings : McpStore.MCPSettings) (s : McpStore.Session) :
  McpStore.isUpdatingConfig (McpStore.store (McpStore.browser s)) = true →
  step s (McpStore.CallUpdateSettings newSettings) =
  {| McpStore.browser := McpStore.browser s; McpStore.inFlight := McpStore.inFlight s;
     McpStore.outcomes := McpStore.outcomes s ++ [McpStore.Resolved] |}.
Proof. intros Hbusy. cbn. by rewrite (updateSettings_call_busy _ _ Hbusy). Qed.

End StoreRuns.

(** C5: while an update is in progress, a call of [updateSettings] returns at
    once with the browser (store fields, persisted record, flag, requests
    sent) exactly as it was; so a second call made while the first is pending
    resolves immediately, and whatever happens afterwards the store, the
    persisted record and the requests in flight are those the first call
    alone produces. *)
Theorem updateSettings_is_single_flight :
  (∀ (newSettings : McpStore.MCPSettings) (b : McpStore.Browser),
     McpStore.isUpdatingConfig (McpStore.store b) = true →
     McpStore.updateSettings_call newSettings b
     = (b, McpStore.Finished McpStore.Resolved)) ∧
  (∀ isBrowser JSON_parse (first second : McpStore.MCPSettings)
     (events : list McpStore.Event) (s : McpStore.Session),
     let pending := McpStore.step isBrowser JSON_parse s
                      (McpStore.CallUpdateSettings first) in
     let both := McpStore.run isBrowser JSON_parse s
                   (McpStore.CallUpdateSettings first ::
                    McpStore.CallUpdateSettings second :: events) in
     let alone := McpStore.run isBrowser JSON_parse s
                    (McpStore.CallUpdateSettings first :: events) in
     McpStore.step isBrowser JSON_parse pending (McpStore.CallUpdateSettings second)
     = {| McpStore.browser := McpStore.browser pending;
          McpStore.inFlight := McpStore.inFlight pending;
          McpStore.outcomes := McpStore.outcomes pending ++ [McpStore.Resolved] |} ∧
     McpStore.browser both = McpStore.browser alone ∧
     McpStore.inFlight both = McpStore.inFlight alone).
Proof.
  split; [apply updateSettings_call_busy|].
  intros isBrowser JSON_parse first second events s pending both alone.
  pose proof (step_call_busy isBrowser JSON_parse second pending
                (step_call_sets_flag isBrowser JSON_parse first s)) as Hsecond.
  split; [done|]. subst both alone. cbn [McpStore.run foldl]. fold pending.
  rewrite Hsecond. by apply run_same_view.
Qed.

Lemma updateSettings_is_single_flight_witness :
  McpStore.isUpdatingConfig (McpStore.store busyBrowser) = true ∧
  McpStore.updateSettings_call sampleSettings busyBrowser
  = (busyBrowser, McpStore.Finished McpStore.Resolved).
Proof.
  split; [reflexivity|].
  exact (proj1 updateSettings_is_single_flight sampleSettings busyBrowser eq_refl).
Defined.

(** C6, as stated, fails on the early return: a call that finds an update in
    progress resolves at once and the flag is still set afterwards. *)
Lemma early_return_keeps_flag_set :
  snd (McpStore.updateSettings_call sampleSettings busyBrowser)
  = McpStore.Finished McpStore.Resolved ∧
  McpStore.isUpdatingConfig
    (McpStore.store (fst (McpStore.updateSettings_call sampleSettings busyBrowser)))
  ≠ false.
Proof. split; [reflexivity | discriminate]. Qed.

(** C6, amended: when the discovery request of an update fails, nothing but
    the flag changes (settings, server tools, error and the persisted record
    stay as they were), the call rejects with the failure, and the flag is
    cleared; the flag is cleared as well when the update succeeds; the early
    return leaves the flag set.  From an idle store, the whole failed call
    gives the store back unchanged. *)
Theorem failed_update_keeps_settings (isBrowser : bool)
    (JSON_parse : string → Completion json) :
  (∀ newSettings o b message,
     McpStore.updateServerConfig_result JSON_parse o = Throw message →
     McpStore.updateSettings_resume isBrowser JSON_parse newSettings o b =
     ({| McpStore.store := McpStore.set_isUpdatingConfig false (McpStore.store b);
         McpStore.localStorage := McpStore.localStorage b;
         McpStore.fetched := McpStore.fetched b |},
      McpStore.Rejected message)) ∧
  (∀ newSettings o b,
     McpStore.isUpdatingConfig
       (McpStore.store
          (fst (McpStore.updateSettings_resume isBrowser JSON_parse newSettings o b)))
     = false) ∧
  (∀ newSettings b,
     McpStore.isUpdatingConfig (McpStore.store b) = true →
     fst (McpStore.updateSettings_call newSettings b) = b) ∧
  (∀ newSettings o b message,
     McpStore.isUpdatingConfig (McpStore.store b) = false →
     McpStore.updateServerConfig_result JSON_parse o = Throw message →
     ∃ b1, McpStore.updateSettings_call newSettings b
           = (b1, McpStore.Awaiting newSettings) ∧
           ∃ b2, McpStore.updateSettings_resume isBrowser JSON_parse newSettings o b1
                 = (b2, McpStore.Rejected message) ∧
                 McpStore.store b2 = McpStore.store b ∧
                 McpStore.localStorage b2 = McpStore.localStorage b).
Proof.
  split; [|split; [|split]].
  - intros newSettings o b message Hfail.
    unfold McpStore.updateSettings_resume. by rewrite Hfail.
  - intros newSettings o b. unfold McpStore.updateSettings_resume.
    by destruct (McpStore.updateServerConfig_result JSON_parse o).
  - intros newSettings b Hbusy. by rewrite (updateSettings_call_busy _ _ Hbusy).
  - intros newSettings o b message Hidle Hfail.
    unfold McpStore.updateSettings_call, McpStore.updateSettings_resume.
    rewrite Hidle, Hfail. eexists. split; [done|]. eexists. split; [done|].
    split; [|done]. destruct b as [[] ? ?]. cbn in *. by subst.
Qed.

Lemma failed_update_keeps_settings_witness :
  McpStore.updateSettings_resume true parseOrThrow sampleSettings
    (McpStore.FetchResponse false 500 "Internal Server Error" "")
    busyBrowser
  = (idleBrowser, McpStore.Rejected "Server responded with 500: Internal Server Error").
Proof.
  exact (proj1 (failed_update_keeps_settings true parseOrThrow) sampleSettings
           (McpStore.FetchResponse false 500 "Internal Server Error" "")
           busyBrowser _ eq_refl).
Defined.

(** ** [JSON.parse] after [JSON.stringify] *)

(** Induction on JSON values, with the hypothesis for every element of an
    array and every member of an object. *)
Lemma json_nested_ind (P : json → Prop) :
  P JNull → (∀ b, P (JBool b)) → (∀ n, P (JNum n)) → (∀ s, P (JStr s)) →
  (∀ l, Forall P l → P (JArr l)) →
  (∀ m, Forall (λ e, P e.2) m → P (JObj m)) →
  ∀ v, P v.
Proof.
  intros Hnull Hbool Hnum Hstr Harr Hobj. fix IH 1. intros [|b|n|s|l|m].
  - exact Hnull.
  - apply Hbool.
  - apply Hnum.
  - apply Hstr.
  - apply Harr. induction l as [|x l IHl]; constructor; [apply IH | exact IHl].
  - apply Hobj. induction m as [|[k x] m IHm]; constructor; [apply IH | exact IHm].
Qed.

Lemma read_write_char (c : ascii) (k : string) :
  Json.read_string_body (Json.write_char c k) =
  match Json.read_string_body k with
  | Some (str, rest) => Some (String c str, rest)
  | None => None
  end.
Proof. destruct c as [[] [] [] [] [] [] [] []]; reflexivity. Qed.

Lemma read_write_string_body (s k : string) :
  Json.read_string_body (Json.write_string_body s k) = Some (s, k).
Proof.
  induction s as [|c s IH]; [done|].
  cbn [Json.write_string_body]. by rewrite read_write_char, IH.
Qed.

Lemma unorm_integerPart (u : Decimal.uint) :
  Decimal.unorm u = u → Json.integerPart u = true.
Proof.
  destruct u as [|u| | | | | | | | |]; try done.
  rewrite unorm_D0. unfold Decimal.unorm.
  destruct (Decimal.nzhead u) eqn:Hhead; try done.
  - by intros [= <-].
  - intros [= ->]. by apply nzhead_nonzero in Hhead.
Qed.

Lemma to_uint_integerPart (p : positive) : Json.integerPart (Pos.to_uint p) = true.
Proof.
  apply unorm_integerPart.
  rewrite <- DecimalPos.Unsigned.to_of, DecimalPos.Unsigned.of_to. done.
Qed.

Lemma to_int_integerPart (n : Z) :
  Json.integerPart (match Z.to_int n with Decimal.Pos u | Decimal.Neg u => u end) = true.
Proof. destruct n; [done | apply to_uint_integerPart..]. Qed.

Lemma read_uint_delimited (k : string) :
  delimited k → Json.read_uint k = (Decimal.Nil, k) ∧ Json.endsNumber k = true.
Proof. destruct k as [|c k]; [done|]. by intros [->|[->| ->]]. Qed.

Lemma read_write_uint (u : Decimal.uint) (k : string) :
  delimited k → Json.read_uint (Json.write_uint u k) = (u, k).
Proof.
  intros Hk. induction u; cbn; rewrite ?IHu; try done.
  by apply read_uint_delimited.
Qed.

Lemma read_write_number (negative : bool) (u : Decimal.uint) (k : string) :
  delimited k → Json.integerPart u = true →
  Json.read_number negative (Json.write_uint u k) =
  Some (JNum (Z.of_int (if negative then Decimal.Neg u else Decimal.Pos u)), k).
Proof.
  intros Hk Hu. unfold Json.read_number.
  rewrite (read_write_uint u k Hk), Hu.
  by destruct (read_uint_delimited k Hk) as [_ ->].
Qed.

Lemma read_value_number (n : Z) (k : string) (fuel : nat) :
  delimited k →
  Json.read_value (S fuel) (Json.write_number n k) = Some (JNum n, k).
Proof.
  intros Hk. pose proof (to_int_integerPart n) as Hint.
  pose proof (DecimalZ.of_to n) as Hn. unfold Json.write_number.
  destruct (Z.to_int n) as [u|u].
  - rewrite <- Hn, <- (read_write_number false u k Hk Hint).
    by destruct u.
  - by rewrite <- Hn, <- (read_write_number true u k Hk Hint).
Qed.

Lemma write_seq_cons {A : Type} (w : A → string → string) (x : A) (xs : list A)
    (k : string) :
  Json.write_seq w (x :: xs) k =
  w x (match xs with [] => k | _ :: _ => String "," (Json.write_seq w xs k) end).
Proof. by destruct xs. Qed.

Lemma write_value_startsValue (v : json) (k : string) :
  startsValue (Json.write_value v k).
Proof.
  destruct v as [|[]|n|s|l|m]; cbn; try set_solver.
  pose proof (to_int_integerPart n) as Hint. unfold Json.write_number.
  destruct (Z.to_int n) as [u|u]; [|cbn; set_solver].
  destruct u; cbn; try done; set_solver.
Qed.

Lemma closing_startsValue (c : ascii) (s : string) :
  c = "]"%char ∨ c = "}"%char → startsValue s → Json.closing c s = None.
Proof.
  destruct s as [|c' s]; [done|]. cbn. intros Hc Hin.
  repeat (apply elem_of_cons in Hin as [->|Hin]; [by destruct Hc as [-> | ->]|]).
  by apply elem_of_nil in Hin.
Qed.

Lemma read_value_S (fuel : nat) (s : string) :
  Json.read_value (S fuel) s =
  match Json.skip_ws s with
  | EmptyString => None
  | String c r =>
      match c with
      | "n" => Json.expect "ull" JNull r
      | "t" => Json.expect "rue" (JBool true) r
      | "f" => Json.expect "alse" (JBool false) r
      | "034" =>
          match Json.read_string_body r with
          | Some (str, rest) => Some (JStr str, rest)
          | None => None
          end
      | "[" =>
          match Json.closing "]" r with
          | Some rest => Some (JArr [], rest)
          | None =>
              match Json.read_elements fuel r with
              | Some (l, rest) => Some (JArr l, rest)
              | None => None
              end
          end
      | "{" =>
          match Json.closing "}" r with
          | Some rest => Some (JObj [], rest)
          | None =>
              match Json.read_members fuel r with
              | Some (l, rest) => Some (Json.build_object l, rest)
              | None => None
              end
          end
      | "-" => Json.read_number true r
      | _ => Json.read_number false (String c r)
      end
  end%char.
Proof. reflexivity. Qed.

Lemma read_elements_S (fuel : nat) (s : string) :
  Json.read_elements (S fuel) s =
  match Json.read_value fuel s with
  | Some (v, rest) =>
      match Json.closing "]" rest with
      | Some rest' => Some ([v], rest')
      | None =>
          match Json.closing "," rest with
          | Some rest' =>
              match Json.read_elements fuel rest' with
              | Some (l, rest'') => Some (v :: l, rest'')
              | None => None
              end
          | None => None
          end
      end
  | None => None
  end.
Proof. reflexivity. Qed.

Lemma read_members_S (fuel : nat) (s : string) :
  Json.read_members (S fuel) s =
  match Json.closing "034" s with
  | Some r =>
      match Json.read_string_body r with
      | Some (key, rest) =>
          match Json.closing ":" rest with
          | Some rest' =>
              match Json.read_value fuel rest' with
              | Some (v, rest'') =>
                  match Json.closing "}" rest'' with
                  | Some t => Some ([(key, v)], t)
                  | None =>
                      match Json.closing "," rest'' with
                      | Some t =>
                          match Json.read_members fuel t with
                          | Some (l, t') => Some ((key, v) :: l, t')
                          | None => None
                          end
                      | None => None
                      end
                  end
              | None => None
              end
          | None => None
          end
      | None => None
      end
  | None => None
  end.
Proof. reflexivity. Qed.

Lemma read_write_elements (l : list json) :
  l ≠ [] → Forall reads_back l →
  ∀ k fuel, foldr (λ x n, S (weight x + n)) 0 l ≤ fuel →
            Json.read_elements fuel (Json.write_seq Json.write_value l (String "]" k))
            = Some (l, k).
Proof.
  induction l as [|x xs IH]; [done|]. intros _ Hall k fuel Hfuel.
  apply Forall_cons in Hall as [Hx Hxs]. cbn [foldr] in Hfuel.
  destruct fuel as [|fuel]; [lia|].
  rewrite read_elements_S, write_seq_cons.
  destruct xs as [|y ys].
  - rewrite Hx; [done | cbn; auto | lia].
  - rewrite Hx; [| cbn; auto | lia].
    change (Json.closing "]" (String "," ?t)) with (@None string).
    change (Json.closing "," (String "," ?t)) with (Some t).
    cbn match. rewrite IH; [done | done | done | lia].
Qed.

Lemma read_write_members (m : list (string * json)) :
  m ≠ [] → Forall (λ e, reads_back e.2) m →
  ∀ k fuel,
    foldr (λ e n, S (weight e.2 + n)) 0 m ≤ fuel →
    Json.read_members fuel
      (Json.write_seq
         (λ (e : string * json) k',
            Json.write_string e.1 (String ":" (Json.write_value e.2 k')))
         m (String "}" k))
    = Some (m, k).
Proof.
  induction m as [|[key x] ms IH]; [done|]. intros _ Hall k fuel Hfuel.
  apply Forall_cons in Hall as [Hx Hms]. cbn [foldr snd] in Hfuel. cbn [snd] in Hx.
  destruct fuel as [|fuel]; [lia|].
  rewrite read_members_S, write_seq_cons. cbn [fst snd].
  change (Json.closing "034" (Json.write_string key ?t))
    with (Some (Json.write_string_body key t)).
  cbn match. rewrite read_write_string_body.
  change (Json.closing ":" (String ":" ?t)) with (Some t). cbn match.
  destruct ms as [|e es].
  - rewrite Hx; [done | cbn; auto | lia].
  - rewrite Hx; [| cbn; auto | lia].
    change (Json.closing "}" (String "," ?t)) with (@None string).
    change (Json.closing "," (String "," ?t)) with (Some t).
    cbn match. rewrite IH; [done | done | done | lia].
Qed.

Lemma define_member_fresh (m : list (string * json)) (k : string) (v : json) :
  k ∉ m.*1 → Json.define_member m k v = m ++ [(k, v)].
Proof.
  induction m as [|[k' v'] m IH]; [done|]. cbn. intros Hk.
  apply not_elem_of_cons in Hk as [Hne Hk]. case_decide; [done|]. by rewrite IH.
Qed.

Lemma foldl_define_member (acc l : list (string * json)) :
  NoDup (acc ++ l).*1 →
  foldl (λ m e, Json.define_member m e.1 e.2) acc l = acc ++ l.
Proof.
  revert acc. induction l as [|[k v] l IH]; intros acc Hnd; cbn.
  - by rewrite app_nil_r.
  - rewrite fmap_app in Hnd. cbn in Hnd.
    rewrite define_member_fresh.
    + rewrite IH; [by rewrite <- app_assoc|].
      by rewrite <- app_assoc, fmap_app.
    + apply NoDup_app in Hnd as (_ & Hdisj & _). intros Hin.
      apply (Hdisj _ Hin). apply elem_of_cons. by left.
Qed.

Lemma build_object_unique (m : list (string * json)) :
  NoDup m.*1 → Json.build_object m = JObj m.
Proof. intros Hnd. unfold Json.build_object. by rewrite foldl_define_member. Qed.

Lemma unique_keys_elements (l : list json) :
  foldr (λ x P, Json.unique_keys x ∧ P) True l ↔ Forall Json.unique_keys l.
Proof.
  induction l as [|x l IH]; cbn; [by split|].
  rewrite Forall_cons. by rewrite IH.
Qed.

Lemma unique_keys_members (m : list (string * json)) :
  foldr (λ e P, Json.unique_keys e.2 ∧ P) True m
  ↔ Forall (λ e, Json.unique_keys e.2) m.
Proof.
  induction m as [|x m IH]; cbn; [by split|].
  rewrite Forall_cons. by rewrite IH.
Qed.

(** Reading what was written gives the value back. *)
Lemma read_write_value (v : json) : Json.unique_keys v → reads_back v.
Proof.
  induction v as [|b|n|s|l IH|m IH] using json_nested_ind;
    intros Huniq k fuel Hk Hfuel;
    (destruct fuel as [|fuel]; [cbn in Hfuel; lia|]).
  - done.
  - by destruct b.
  - by apply read_value_number.
  - rewrite read_value_S. cbn. by rewrite read_write_string_body.
  - cbn in Huniq. apply unique_keys_elements in Huniq.
    rewrite read_value_S. cbn [Json.write_value Json.skip_ws Json.isJsonSpace].
    cbn match. destruct l as [|x xs]; [done|].
    rewrite closing_startsValue;
      [| by left | rewrite write_seq_cons; apply write_value_startsValue].
    rewrite read_write_elements; [done | done | | cbn in Hfuel |- *; lia].
    rewrite Forall_forall in IH, Huniq. apply Forall_forall. intros y Hy.
    apply IH; auto.
  - cbn in Huniq. destruct Huniq as [Hnd Huniq]. apply unique_keys_members in Huniq.
    rewrite read_value_S. cbn [Json.write_value Json.skip_ws Json.isJsonSpace].
    cbn match. destruct m as [|e es]; [done|].
    rewrite closing_startsValue;
      [| by right | rewrite write_seq_cons; cbn; set_solver].
    rewrite read_write_members; [by rewrite build_object_unique | done | |
                                 cbn in Hfuel |- *; lia].
    rewrite Forall_forall in IH, Huniq. apply Forall_forall. intros y Hy.
    apply IH; auto.
Qed.

(** *** The serialized text is long enough to pay for its own parsing *)

Lemma length_write_char (c : ascii) (k : string) :
  S (String.length k) ≤ String.length (Json.write_char c k).
Proof. unfold Json.write_char. repeat case_match; cbn [String.length]; lia. Qed.

Lemma length_write_string_body (s k : string) :
  S (String.length k) ≤ String.length (Json.write_string_body s k).
Proof.
  induction s as [|c s IH]; cbn; [lia|].
  pose proof (length_write_char c (Json.write_string_body s k)). lia.
Qed.

Lemma length_write_uint (u : Decimal.uint) (k : string) :
  String.length k ≤ String.length (Json.write_uint u k).
Proof. induction u; cbn; lia. Qed.

Lemma length_write_number (n : Z) (k : string) :
  S (String.length k) ≤ String.length (Json.write_number n k).
Proof.
  pose proof (to_int_integerPart n) as Hint. unfold Json.write_number.
  destruct (Z.to_int n) as [u|u].
  - destruct u; try done; cbn; pose proof (length_write_uint u k); lia.
  - cbn. pose proof (length_write_uint u k). lia.
Qed.

Lemma length_write_seq {A : Type} (w : A → string → string) (wt : A → nat)
    (l : list A) (k : string) :
  Forall (λ x, ∀ k', wt x + String.length k' ≤ String.length (w x k')) l →
  foldr (λ x n, S (wt x + n)) 0 l + String.length k
  ≤ S (String.length (Json.write_seq w l k)).
Proof.
  induction l as [|x xs IH]; intros Hall; [cbn; lia|].
  apply Forall_cons in Hall as [Hx Hxs]. specialize (IH Hxs).
  rewrite write_seq_cons. cbn [foldr]. destruct xs as [|y ys].
  - specialize (Hx k). cbn. lia.
  - specialize (Hx (String "," (Json.write_seq w (y :: ys) k))).
    cbn [String.length] in Hx. lia.
Qed.

Lemma length_write_value (v : json) (k : string) :
  weight v + String.length k ≤ String.length (Json.write_value v k).
Proof.
  revert k. induction v as [|b|n|s|l IH|m IH] using json_nested_ind; intros k.
  - cbn. lia.
  - destruct b; cbn; lia.
  - pose proof (length_write_number n k). cbn. lia.
  - pose proof (length_write_string_body s k). cbn. lia.
  - pose proof (length_write_seq Json.write_value weight l (String "]" k) IH) as Hl.
    cbn in Hl |- *. lia.
  - assert (Forall (λ e : string * json,
                      ∀ k', weight e.2 + String.length k' ≤
                            String.length (Json.write_string e.1
                                             (String ":" (Json.write_value e.2 k')))) m)
      as Hall.
    { eapply Forall_impl; [exact IH|]. intros [key x] Hx k'. cbn in *.
      pose proof (length_write_string_body key (String ":" (Json.write_value x k'))).
      specialize (Hx k'). cbn in *. lia. }
    pose proof (length_write_seq _ (λ e, weight e.2) m (String "}" k) Hall) as Hm.
    cbn in Hm |- *. lia.
Qed.

(** [JSON.parse(JSON.stringify(v))] is [v], for every value whose objects
    have unique keys. *)
Lemma parse_stringify (v : json) :
  Json.unique_keys v → Json.parse (Json.stringify v) = Some v.
Proof.
  intros Huniq. unfold Json.parse, Json.stringify.
  rewrite (read_write_value v Huniq); [done | done |].
  pose proof (length_write_value v ""). cbn in *. lia.
Qed.

(** *** Settings *)

Lemma fst_prod_map_id {A B : Type} (f : A → B) (l : list (string * A)) :
  (prod_map id f <$> l).*1 = l.*1.
Proof. induction l as [|[k x] l IH]; [done|]. cbn. by rewrite IH. Qed.

Lemma unique_keys_server (c : McpStore.MCPServerConfig) :
  Json.unique_keys (McpStore.server_value c).
Proof.
  cbn. split; [compute_done|]. repeat split.
  - apply unique_keys_elements, Forall_fmap, Forall_true. done.
  - rewrite fst_prod_map_id. apply NoDup_fst_map_to_list.
  - apply unique_keys_members, Forall_fmap, Forall_true. by intros [k v].
Qed.

Lemma unique_keys_settings (s : McpStore.MCPSettings) :
  Json.unique_keys (McpStore.settings_value s).
Proof.
  cbn. split; [compute_done|]. repeat split; try compute_done.
  - rewrite fst_prod_map_id. apply NoDup_fst_map_to_list.
  - apply unique_keys_members, Forall_fmap, Forall_true. intros [k c].
    apply unique_keys_server.
Qed.

Lemma server_value_inj (c c' : McpStore.MCPServerConfig) :
  McpStore.server_value c = McpStore.server_value c' → c = c'.
Proof.
  destruct c as [t cmd a e d], c' as [t' cmd' a' e' d']. cbn.
  assert (Inj (=) (=) JStr) as Hinj by (by intros ? ? [= ->]).
  intros [= -> -> Ha He ->]. f_equal.
  - by apply (inj (fmap JStr)) in Ha.
  - apply (inj (fmap (prod_map id JStr))) in He.
    by rewrite <- (list_to_map_to_list e), He, list_to_map_to_list.
Qed.

Lemma settings_value_inj (s s' : McpStore.MCPSettings) :
  McpStore.settings_value s = McpStore.settings_value s' → s = s'.
Proof.
  destruct s as [[m] n], s' as [[m'] n']. cbn. intros [= Hm ->]. do 2 f_equal.
  assert (Inj (=) (=) McpStore.server_value) as Hinj
    by (intros ? ?; apply server_value_inj).
  apply (inj (fmap (prod_map id McpStore.server_value))) in Hm.
  by rewrite <- (list_to_map_to_list m), Hm, list_to_map_to_list.
Qed.

Lemma parseOrThrow_stringify (v : json) :
  Json.unique_keys v → parseOrThrow (Json.stringify v) = Normal v.
Proof. intros Huniq. unfold parseOrThrow. by rewrite parse_stringify. Qed.

(** C9: serializing well-formed settings and parsing the text gives back the
    value that was serialized, and that value denotes no other settings.
    Hence the record that a successful [updateSettings] persists is read
    back by [initialize] on a fresh page as the same settings. *)
Theorem settings_round_trip (s : McpStore.MCPSettings) :
  wellFormed s →
  Json.parse (Json.stringify (McpStore.settings_value s))
  = Some (McpStore.settings_value s) ∧
  (∀ s', Json.parse (Json.stringify (McpStore.settings_value s))
         = Some (McpStore.settings_value s') → s' = s) ∧
  (∀ o b tools,
     McpStore.updateServerConfig_result parseOrThrow o = Normal tools →
     McpStore.localStorage
       (fst (McpStore.updateSettings_resume true parseOrThrow s o b))
     !! McpStore.MCP_SETTINGS_KEY
     = Some (Json.stringify (McpStore.settings_value s))) ∧
  (∀ o tools,
     McpStore.updateServerConfig_result parseOrThrow o = Normal tools →
     ∃ b1,
       McpStore.initialize_call true parseOrThrow
         (freshBrowser (Json.stringify (McpStore.settings_value s)))
       = (b1, McpStore.Awaiting (McpStore.settings_value s)) ∧
       McpStore.settings
         (McpStore.store
            (fst (McpStore.initialize_resume parseOrThrow
                    (McpStore.settings_value s) o b1)))
       = McpStore.settings_value s).
Proof.
  intros _. pose proof (parse_stringify _ (unique_keys_settings s)) as Hrt.
  split; [done|]. split; [|split].
  - intros s'. rewrite Hrt. intros Heq%(inj Some).
    exact (eq_sym (settings_value_inj _ _ Heq)).
  - intros o b tools Hok. unfold McpStore.updateSettings_resume. rewrite Hok.
    cbn. apply lookup_insert_eq.
  - intros o tools Hok. unfold McpStore.initialize_call, freshBrowser.
    cbn [McpStore.store McpStore.isInitialized McpStore.initialStore
         McpStore.localStorage].
    rewrite lookup_singleton_eq.
    pose proof (parseOrThrow_stringify _ (unique_keys_settings s)) as Hparse.
    destruct (Json.stringify (McpStore.settings_value s)) as [|c r] eqn:Htext;
      [done|].
    rewrite Hparse. cbn [get_prop McpStore.settings_value lookup_member].
    eexists. split; [done|].
    unfold McpStore.initialize_resume. by rewrite Hok.
Qed.

Lemma settings_round_trip_witness :
  Json.parse (Json.stringify (McpStore.settings_value sampleSettings))
  = Some (McpStore.settings_value sampleSettings).
Proof. exact (proj1 (settings_round_trip sampleSettings eq_refl)). Defined.

(** * Further properties of the sources *)

(** ** The gateway beyond its special cases *)

Section GatewayMore.
Context `{Host}.

Lemma execute_run command args env cwd (s : Sys) :
  Exec.executeGitHubCLICommand command args env cwd s =
  (resultOf command args
     (execSync (gatewayInvocation command args env cwd) (world s)).1,
   spawnedAfter s (execSync (gatewayInvocation command args env cwd) (world s)).2
     [gatewayInvocation command args env cwd]).
Proof.
  unfold Exec.executeGitHubCLICommand, mbind, Proc_bind, spawn, gatewayInvocation.
  simpl. by destruct (execSync _ (world s)) as [[out|e] w].
Qed.

(** The route on an allowed command, branch by branch. *)
Lemma action_allowed command args env cwd :
  Exec.isAllowed command = true →
  Exec.action (post command args env cwd) =
  if decide (command = "version") then
    result ← Exec.executeGitHubCLICommand command (default [] args) (default ∅ env) cwd;
    mret (Exec.json_reply
            (if Exec.success result
             then match Exec.versionMatch (Exec.output result) with
                  | Some v => Exec.set_version (Some v) result
                  | None => result
                  end
             else result))
  else if startsWith command "auth" then
    result ← Exec.executeGitHubCLICommand command (default [] args) (default ∅ env) cwd;
    if bool_decide (command = "auth status") && Exec.success result then
      userResult ← Exec.executeGitHubCLICommand "api" ["user"] (default ∅ env) cwd;
      mret (Exec.json_reply
              (if Exec.success userResult
               then match Exec.parseUser (Exec.output userResult) with
                    | Some u => Exec.set_user (Some u) result
                    | None => result
                    end
               else result))
    else mret (Exec.json_reply result)
  else
    result ← Exec.executeGitHubCLICommand command (default [] args) (default ∅ env) cwd;
    mret (Exec.json_reply result).
Proof. intros Hok. unfold Exec.action, post. simpl. by rewrite Hok. Qed.

Lemma action_run command args env cwd (s : Sys) :
  Exec.isAllowed command = true →
  Exec.action (post command args env cwd) s =
  gatewayRun command (default [] args) (default ∅ env) cwd s.
Proof.
  intros Hok. rewrite (action_allowed _ _ _ _ Hok). unfold gatewayRun.
  destruct (decide (command = "version")) as [->|Hv].
  - unfold mbind, Proc_bind. by rewrite execute_run.
  - destruct (decide (command = "auth status")) as [->|Ha].
    + assert (startsWith "auth status" "auth" = true) as -> by reflexivity.
      rewrite bool_decide_eq_true_2 by done. cbn [andb].
      unfold mbind, Proc_bind. rewrite execute_run.
      destruct (execSync _ (world s)) as [[out1|e1] w1]; cbn; [|done].
      rewrite execute_run. cbn.
      destruct (execSync _ w1) as [[out2|e2] w2]; cbn;
        unfold spawnedAfter; cbn; by rewrite <- app_assoc.
    + rewrite (bool_decide_eq_false_2 _ Ha). cbn [andb].
      destruct (startsWith command "auth");
        unfold mbind, Proc_bind; by rewrite execute_run.
Qed.

End GatewayMore.

Lemma resultOf_shape command args (o : ExecOutcome) :
  Exec.command (resultOf command args o) = command +:+ " " +:+ join " " args ∧
  Exec.version (resultOf command args o) = None ∧
  Exec.user (resultOf command args o) = None ∧
  (Exec.success (resultOf command args o) = true ∧
   Exec.error (resultOf command args o) = None ∨
   Exec.success (resultOf command args o) = false ∧
   ∃ c m, Exec.error (resultOf command args o) = Some (String c m)).
Proof.
  destruct o as [out|[stdout [[|c m]|]]]; cbn; repeat split; eauto.
Qed.

Lemma withVersion_shape (r : Exec.GitHubCLIExecResponse) :
  Exec.success (withVersion r) = Exec.success r ∧
  Exec.command (withVersion r) = Exec.command r ∧
  Exec.error (withVersion r) = Exec.error r ∧
  Exec.user (withVersion r) = Exec.user r.
Proof.
  unfold withVersion. destruct (Exec.success r) eqn:Hs; [|by rewrite Hs].
  destruct (Exec.versionMatch (Exec.output r)); cbn; by rewrite ?Hs.
Qed.

Lemma withIdentity_shape `{Host} (o : ExecOutcome) (r : Exec.GitHubCLIExecResponse) :
  Exec.success (withIdentity o r) = Exec.success r ∧
  Exec.command (withIdentity o r) = Exec.command r ∧
  Exec.error (withIdentity o r) = Exec.error r ∧
  Exec.version (withIdentity o r) = Exec.version r.
Proof.
  destruct o as [out|e]; [|done]. cbn. by destruct (Exec.parseUser (trim out)).
Qed.

Lemma gatewayInvocation_runsGh `{Host} command args env cwd :
  runsGh (gatewayInvocation command args env cwd).
Proof. by eexists. Qed.

Lemma action_not_post `{Host} (request : Exec.Request) (s : Sys) :
  Exec.method request ≠ "POST" →
  Exec.action request s =
  ({| Exec.status := 405; Exec.body := Exec.PlainBody false "Method not allowed" |}, s).
Proof. intros Hm. unfold Exec.action. by case_decide. Qed.

Lemma action_unreadable `{Host} (request : Exec.Request) (s : Sys) message :
  Exec.method request = "POST" → Exec.request_json request = Throw message →
  Exec.action request s =
  (Exec.json_reply
     {| Exec.success := false; Exec.command := ""; Exec.output := "";
        Exec.error := Some message; Exec.version := None; Exec.user := None |}, s).
Proof. intros Hm Hbody. unfold Exec.action. rewrite Hbody. by case_decide. Qed.

(** X1: a request that is not a POST is answered 405 with the bare
    [{success, error}] body, and a POST whose body cannot be read is answered
    200 with success false and the reader's message; in both cases the state
    comes back unchanged, so nothing is spawned. *)
Theorem unreadable_requests_spawn_nothing `{Host} (request : Exec.Request) (s : Sys) :
  (Exec.method request ≠ "POST" →
   Exec.action request s =
   ({| Exec.status := 405; Exec.body := Exec.PlainBody false "Method not allowed" |},
    s)) ∧
  (∀ message,
     Exec.method request = "POST" → Exec.request_json request = Throw message →
     Exec.action request s =
     ({| Exec.status := 200;
         Exec.body :=
           Exec.ExecBody
             {| Exec.success := false; Exec.command := ""; Exec.output := "";
                Exec.error := Some message; Exec.version := None;
                Exec.user := None |} |}, s)).
Proof.
  split; [apply action_not_post | intros message; apply action_unreadable].
Qed.

Lemma unreadable_requests_spawn_nothing_witness :
  Exec.action (H := scriptedHost)
    {| Exec.method := "post"; Exec.request_json := Throw "Unexpected end of JSON input" |}
    (scriptedSys [Returned "never read"]) =
  ({| Exec.status := 405; Exec.body := Exec.PlainBody false "Method not allowed" |},
   scriptedSys [Returned "never read"]) ∧
  Exec.action (H := scriptedHost)
    {| Exec.method := "POST"; Exec.request_json := Throw "Unexpected end of JSON input" |}
    (scriptedSys [Returned "never read"]) =
  ({| Exec.status := 200;
      Exec.body :=
        Exec.ExecBody
          {| Exec.success := false; Exec.command := ""; Exec.output := "";
             Exec.error := Some "Unexpected end of JSON input"; Exec.version := None;
             Exec.user := None |} |},
   scriptedSys [Returned "never read"]).
Proof.
  split.
  - apply (unreadable_requests_spawn_nothing (H := scriptedHost)). discriminate.
  - by apply (unreadable_requests_spawn_nothing (H := scriptedHost)).
Defined.

(** X2: whatever the request, the route calls [execSync] at most twice; each
    command line it hands over begins with the quoted path of the configured
    executable (what follows the path goes to the shell as the request gave
    it, see X6); and it calls twice only for the verb [auth status]. *)
Theorem action_calls_execSync_at_most_twice `{Host} (request : Exec.Request) (s : Sys) :
  ∃ invs,
    spawned (snd (Exec.action request s)) = spawned s ++ invs ∧
    length invs ≤ 2 ∧ Forall runsGh invs ∧
    (length invs = 2 →
     ∃ body, Exec.request_json request = Normal body ∧
             Exec.req_command body = "auth status").
Proof.
  destruct request as [m [[command args env cwd]|message]].
  - destruct (decide (m = "POST")) as [->|Hm].
    + change {| Exec.method := "POST"; Exec.request_json := Normal _ |}
        with (post command args env cwd).
      destruct (Exec.isAllowed command) eqn:Hok.
      * rewrite (action_run _ _ _ _ _ Hok). unfold gatewayRun.
        destruct (decide (command = "version")) as [->|Hv];
          [|destruct (decide (command = "auth status")) as [->|Ha];
            [destruct (execSync _ (world s)).1|]];
          eexists; (split; [reflexivity|]); cbn;
          (split; [lia|]);
          (split; [repeat constructor; apply gatewayInvocation_runsGh|]);
          try done.
        intros _. by eexists.
      * unfold post.
        rewrite (action_post {| Exec.req_command := command; Exec.req_args := args;
                                Exec.req_env := env; Exec.req_cwd := cwd |} s Hok).
        exists []. cbn. rewrite app_nil_r. repeat split; [lia | constructor | done].
    + exists []. rewrite app_nil_r, action_not_post by done.
      repeat split; [cbn; lia | constructor | done].
  - exists []. rewrite app_nil_r. destruct (decide (m = "POST")) as [->|Hm].
    + rewrite (action_unreadable _ s message) by done.
      repeat split; [cbn; lia | constructor | done].
    + rewrite action_not_post by done.
      repeat split; [cbn; lia | constructor | done].
Qed.

Lemma gatewayRun_reply `{Host} command args env cwd (s : Sys) :
  ∃ r, (gatewayRun command args env cwd s).1 = Exec.json_reply r ∧
       Exec.success r
       = Exec.success (resultOf command args
           (execSync (gatewayInvocation command args env cwd) (world s)).1) ∧
       Exec.command r = command +:+ " " +:+ join " " args ∧
       Exec.error r
       = Exec.error (resultOf command args
           (execSync (gatewayInvocation command args env cwd) (world s)).1) ∧
       (is_Some (Exec.version r) → command = "version") ∧
       (is_Some (Exec.user r) → command = "auth status").
Proof.
  unfold gatewayRun.
  set (o1 := (execSync (gatewayInvocation command args env cwd) (world s)).1).
  destruct (resultOf_shape command args o1) as (Hc & Hv & Hu & _).
  destruct (decide (command = "version")) as [->|Hne].
  - eexists. split; [done|]. destruct (withVersion_shape (resultOf "version" args o1))
      as (-> & -> & -> & ->). rewrite Hu.
    repeat split; first [done | by intros [? ?]].
  - destruct (decide (command = "auth status")) as [->|Hne'].
    + destruct o1 as [out1|e1] eqn:Ho1.
      * eexists. split; [done|].
        destruct (withIdentity_shape
                    (execSync (gatewayInvocation "api" ["user"] env cwd)
                       (execSync (gatewayInvocation "auth status" args env cwd)
                          (world s)).2).1
                    (resultOf "auth status" args (Returned out1)))
          as (-> & -> & -> & ->).
        repeat split; first [done | by intros [? ?]].
      * eexists. split; [done|]. repeat split; first [done | by intros [? ?]].
    + eexists. split; [done|]. rewrite Hc, Hv, Hu.
      repeat split; first [done | by intros [? ?]].
Qed.

(** X3: a POST whose body has the declared type [GitHubCLIExecRequest] (a
    string [command]; [args], [env] and [cwd] absent or of their declared
    types) is answered 200 with a result that echoes the command and its
    arguments, and that either succeeded without an error or failed with a
    non-empty error text. *)
Theorem reply_is_success_or_carries_error `{Host} command args env cwd (s : Sys) :
  ∃ r, (Exec.action (post command args env cwd) s).1
       = {| Exec.status := 200; Exec.body := Exec.ExecBody r |} ∧
       Exec.command r = command +:+ " " +:+ join " " (default [] args) ∧
       (Exec.success r = true ∧ Exec.error r = None ∨
        Exec.success r = false ∧ ∃ c m, Exec.error r = Some (String c m)).
Proof.
  destruct (Exec.isAllowed command) eqn:Hok.
  - rewrite (action_run _ _ _ _ _ Hok).
    destruct (gatewayRun_reply command (default [] args) (default ∅ env) cwd s)
      as (r & Hr & Hs & Hc & He & _).
    exists r. split; [done|]. split; [done|]. rewrite Hs, He.
    apply resultOf_shape.
  - unfold post.
    rewrite (action_post {| Exec.req_command := command; Exec.req_args := args;
                            Exec.req_env := env; Exec.req_cwd := cwd |} s Hok).
    eexists. split; [done|]. split; [done|]. right. split; [done|]. by eexists _, _.
Qed.

(** X4: the reply carries a version only for the verb [version] and an
    identity only for the verb [auth status], both compared exactly: a verb
    the validator accepts in another case or with a suffix gets neither. *)
Theorem version_and_identity_need_the_exact_verb `{Host} command args env cwd
    (s : Sys) :
  ∃ r, (Exec.action (post command args env cwd) s).1 = Exec.json_reply r ∧
       (command ≠ "version" → Exec.version r = None) ∧
       (command ≠ "auth status" → Exec.user r = None).
Proof.
  destruct (Exec.isAllowed command) eqn:Hok.
  - rewrite (action_run _ _ _ _ _ Hok).
    destruct (gatewayRun_reply command (default [] args) (default ∅ env) cwd s)
      as (r & Hr & _ & _ & _ & Hv & Hu).
    exists r. split; [done|]. split; intros Hne.
    + destruct (Exec.version r) eqn:Hver; [|done]. destruct Hne. apply Hv. by eexists.
    + destruct (Exec.user r) eqn:Huser; [|done]. destruct Hne. apply Hu. by eexists.
  - unfold post.
    rewrite (action_post {| Exec.req_command := command; Exec.req_args := args;
                            Exec.req_env := env; Exec.req_cwd := cwd |} s Hok).
    by eexists.
Qed.

Lemma version_and_identity_need_the_exact_verb_witness :
  Exec.isAllowed "VERSION" = true ∧
  ∃ r, (Exec.action (H := scriptedHost) (post "VERSION" None None None)
          (scriptedSys [Returned "gh version 2.40.0 (2023-01-01)"])).1
       = Exec.json_reply r ∧
       Exec.output r = "gh version 2.40.0 (2023-01-01)" ∧ Exec.version r = None.
Proof.
  split; [reflexivity|].
  destruct (version_and_identity_need_the_exact_verb (H := scriptedHost)
              "VERSION" None None None
              (scriptedSys [Returned "gh version 2.40.0 (2023-01-01)"]))
    as (r & Hr & Hv & _).
  exists r. split; [exact Hr|]. split; [|apply Hv; discriminate].
  injection Hr as <-. reflexivity.
Defined.

(** X5: the gateway's runner starts exactly one process.  Its command line
    is the quoted executable, the verb and the arguments joined by spaces;
    in its environment an override wins over the ambient variable of the
    same name and every other ambient variable is kept; its working
    directory is the given one unless that is missing or empty, in which
    case it is the configured directory. *)
Theorem runner_launch_parameters `{Host} command args env cwd (s : Sys) :
  ∃ inv,
    spawned (Exec.executeGitHubCLICommand command args env cwd s).2
    = spawned s ++ [inv] ∧
    fullCommand inv
    = quoted "C:\users\neal7\devtools\github cli\bin\gh.exe" +:+ " " +:+
      command +:+ " " +:+ join " " args ∧
    (∀ k, fullEnv inv !! k
          = match env !! k with Some v => Some v | None => process_env !! k end) ∧
    workingDir inv
    = match cwd with
      | Some (String c r) => String c r
      | _ => "C:\users\neal7\devtools\github cli"
      end.
Proof.
  rewrite execute_run. eexists. split; [done|]. split; [done|]. split; [|done].
  intros k. cbn. rewrite lookup_union.
  by destruct (env !! k), (process_env !! k).
Qed.

(** X6: the allowlist looks at the beginning of the command only.  Whatever
    follows a verb, in any letter case, is accepted, and the command is
    placed as it is, unquoted, in the command line of the process started. *)
Theorem verb_prefix_admits_any_suffix `{Host} verb p suffix args env cwd (s : Sys) :
  verb ∈ Exec.allowedCommands → toLowerCase p = verb →
  Exec.isAllowed (p +:+ suffix) = true ∧
  ∃ inv rest,
    spawned (Exec.action (post (p +:+ suffix) args env cwd) s).2
    = spawned s ++ inv :: rest ∧
    fullCommand inv
    = quoted "C:\users\neal7\devtools\github cli\bin\gh.exe" +:+ " " +:+
      (p +:+ suffix) +:+ " " +:+ join " " (default [] args).
Proof.
  intros Hin Hp.
  assert (Exec.isAllowed (p +:+ suffix) = true) as Hok.
  { apply isAllowed_spec. exists verb. split; [done|]. apply startsWith_spec.
    exists (toLowerCase suffix). by rewrite toLowerCase_app, Hp. }
  split; [done|]. rewrite (action_run _ _ _ _ _ Hok). unfold gatewayRun.
  destruct (decide (p +:+ suffix = "version"));
    [|destruct (decide (p +:+ suffix = "auth status"));
      [destruct (execSync _ (world s)).1|]];
    by eexists _, _.
Qed.

Lemma verb_prefix_admits_any_suffix_witness :
  Exec.isAllowed "API user & whoami" = true ∧
  ∃ inv rest,
    spawned (Exec.action (H := scriptedHost)
               (post "API user & whoami" (Some ["--jq"; ".login"]) None None)
               (scriptedSys [])).2 = inv :: rest ∧
    fullCommand inv
    = quoted "C:\users\neal7\devtools\github cli\bin\gh.exe" +:+
      " API user & whoami --jq .login".
Proof.
  exact (verb_prefix_admits_any_suffix (H := scriptedHost) "api" "API"
           " user & whoami" (Some ["--jq"; ".login"]) None None (scriptedSys [])
           ltac:(compute_done) eq_refl).
Defined.

(** X7: when the process of an allowed command cannot be run or exits with
    an error, the reply has success false, the output the process had
    written (as it is, or empty), the error message (or a default text), no
    version and no identity; and no second process is started, whatever the
    verb. *)
Theorem failed_run_is_reported `{Host} command args env cwd (s : Sys) e :
  Exec.isAllowed command = true →
  (execSync (gatewayInvocation command (default [] args) (default ∅ env) cwd)
     (world s)).1 = Thrown e →
  Exec.action (post command args env cwd) s =
  (Exec.json_reply
     {| Exec.success := false;
        Exec.command := command +:+ " " +:+ join " " (default [] args);
        Exec.output := or_string (err_stdout e) "";
        Exec.error := Some (or_string (err_message e) "Command execution failed");
        Exec.version := None; Exec.user := None |},
   spawnedAfter s
     (execSync (gatewayInvocation command (default [] args) (default ∅ env) cwd)
        (world s)).2
     [gatewayInvocation command (default [] args) (default ∅ env) cwd]).
Proof.
  intros Hok Hthrown. rewrite (action_run _ _ _ _ _ Hok). unfold gatewayRun.
  rewrite Hthrown.
  destruct (decide (command = "version")); [done|].
  by destruct (decide (command = "auth status")).
Qed.

Lemma failed_run_is_reported_witness :
  Exec.action (H := scriptedHost) (post "auth status" None None None)
    (scriptedSys [Thrown {| err_stdout := Some " You are not logged in
";
                            err_message := None |};
                  Returned aliceJson]) =
  (Exec.json_reply
     {| Exec.success := false; Exec.command := "auth status ";
        Exec.output := " You are not logged in
";
        Exec.error := Some "Command execution failed";
        Exec.version := None; Exec.user := None |},
   spawnedAfter (H := scriptedHost) (scriptedSys []) [Returned aliceJson]
     [gatewayInvocation (H := scriptedHost) "auth status" [] ∅ None]).
Proof.
  exact (failed_run_is_reported (H := scriptedHost) "auth status" None None None
           (scriptedSys [Thrown {| err_stdout := Some " You are not logged in
";
                                   err_message := None |};
                         Returned aliceJson]) _ eq_refl eq_refl).
Defined.

(** ** The status route and the identity *)

(** X8: whatever the processes do, the status reported is consistent:
    authenticated only if installed, an identity only if authenticated, an
    error exactly when not installed, a version exactly when installed; and
    the loader starts between one and three processes, each with the ambient
    environment unchanged and in the configured directory. *)
Theorem status_is_consistent `{Host} (s : Sys) :
  (Status.isAuthenticated (Status.loader s).1 = true →
   Status.isInstalled (Status.loader s).1 = true) ∧
  (is_Some (Status.user (Status.loader s).1) →
   Status.isAuthenticated (Status.loader s).1 = true) ∧
  (is_Some (Status.error (Status.loader s).1) ↔
   Status.isInstalled (Status.loader s).1 = false) ∧
  (is_Some (Status.version (Status.loader s).1) ↔
   Status.isInstalled (Status.loader s).1 = true) ∧
  ∃ invs,
    spawned (Status.loader s).2 = spawned s ++ invs ∧
    1 ≤ length invs ≤ 3 ∧
    Forall (λ inv, fullEnv inv = process_env ∧
                   workingDir inv = "C:\users\neal7\devtools\github cli") invs.
Proof.
  assert (∀ args, fullEnv (statusInvocation args ∅) = process_env ∧
                  workingDir (statusInvocation args ∅)
                  = "C:\users\neal7\devtools\github cli") as Hinv.
  { intros args. split; [|done]. cbn. by rewrite (left_id_L ∅ (∪)). }
  unfold Status.loader, mbind, Proc_bind. rewrite status_execute.
  destruct (execSync (statusInvocation [] ∅) (world s)) as [[out1|e1] w1]; cbn.
  - rewrite status_execute. cbn.
    destruct (execSync (statusInvocation ["status"] ∅) w1) as [[out2|e2] w2]; cbn.
    + rewrite status_execute. cbn.
      repeat split; try done; try (by intros [? ?]); try (by eexists).
      eexists. rewrite <- !app_assoc. split; [done|]. cbn.
      split; [lia|]. repeat constructor; apply Hinv.
    + repeat split; try done; try (by intros [? ?]); try (by eexists).
      eexists. rewrite <- !app_assoc. split; [done|]. cbn.
      split; [lia|]. repeat constructor; apply Hinv.
  - repeat split; try done; try (by intros [? ?]); try (by eexists).
    eexists. split; [done|]. cbn. split; [lia|]. repeat constructor; apply Hinv.
Qed.

Lemma exec_parseUser_is_Some `{Host} (text : string) :
  is_Some (Exec.parseUser text) ↔ ∃ v, JSON_parse text = Normal v ∧ v ≠ JNull.
Proof.
  unfold Exec.parseUser. destruct (JSON_parse text) as [v|message].
  - destruct v; cbn;
      (split; [first [by intros [? ?] | intros _; by eexists]
              | first [by intros (v & [= <-] & ?) | by eexists]]).
  - split; [by intros [? ?] | by intros (? & ? & _)].
Qed.

Lemma or_else_truthy (n l : value) :
  (truthy l = true → truthy (or_else n l) = true) ∧
  (truthy (or_else n l) = false → or_else n l = l).
Proof.
  unfold or_else. destruct (truthy n) eqn:Hn; [|done].
  split; [done|]. by rewrite Hn.
Qed.

(** X9: how both routes read the identity from the output of [api user].
    No identity is produced exactly when [JSON.parse] throws or yields
    [null].  An identity with a truthy login has a truthy name, and a name
    that is not truthy is the login itself.  A value that is neither [null]
    nor an object still produces an identity, with every field undefined. *)
Theorem identity_reading `{Host} (text : string) :
  (Exec.parseUser text = None ↔ ¬ ∃ v, JSON_parse text = Normal v ∧ v ≠ JNull) ∧
  (Status.parseUser text = None ↔ ¬ ∃ v, JSON_parse text = Normal v ∧ v ≠ JNull) ∧
  (∀ u, Exec.parseUser text = Some u →
        (truthy (Exec.login u) = true → truthy (Exec.name u) = true) ∧
        (truthy (Exec.name u) = false → Exec.name u = Exec.login u)) ∧
  (∀ u, Status.parseUser text = Some u →
        (truthy (Status.login u) = true → truthy (Status.name u) = true) ∧
        (truthy (Status.name u) = false → Status.name u = Status.login u)) ∧
  (∀ v, JSON_parse text = Normal v → v ≠ JNull → (∀ m, v ≠ JObj m) →
        Exec.parseUser text = Some {| Exec.login := None; Exec.name := None |} ∧
        Status.parseUser text
        = Some {| Status.login := None; Status.name := None; Status.email := None |}).
Proof.
  split; [|split; [|split; [|split]]].
  - rewrite <- exec_parseUser_is_Some, <- eq_None_not_Some. done.
  - rewrite <- status_parseUser_is_Some, <- eq_None_not_Some. done.
  - intros u. unfold Exec.parseUser. destruct (JSON_parse text) as [v|]; [|done].
    destruct (get_prop v "login") as [l|]; [|done].
    destruct (get_prop v "name") as [n|]; [|done].
    intros [= <-]. cbn. apply or_else_truthy.
  - intros u. unfold Status.parseUser. destruct (JSON_parse text) as [v|]; [|done].
    destruct (get_prop v "login") as [l|]; [|done].
    destruct (get_prop v "name") as [n|]; [|done].
    destruct (get_prop v "email") as [e|]; [|done].
    intros [= <-]. cbn. apply or_else_truthy.
  - intros v Hv Hnull Hobj. unfold Exec.parseUser, Status.parseUser. rewrite Hv.
    destruct v; try done. by destruct (Hobj members).
Qed.

Lemma identity_reading_witness :
  Exec.parseUser (H := scriptedHost) "[]"
  = Some {| Exec.login := None; Exec.name := None |} ∧
  Status.parseUser (H := scriptedHost) "[]"
  = Some {| Status.login := None; Status.name := None; Status.email := None |}.
Proof.
  destruct (identity_reading (H := scriptedHost) "[]") as (_ & _ & _ & _ & Hedge).
  apply (Hedge (JArr []) eq_refl); [discriminate | intros m; discriminate].
Defined.

(** ** The settings store beyond [updateSettings] *)

Section StoreMore.
Context (isBrowser : bool) (JSON_parse : string → Completion json).

Lemma initialize_resume_initialized (settings : json) (o : McpStore.FetchOutcome)
    (b : McpStore.Browser) :
  (McpStore.initialize_resume JSON_parse settings o b).2 = McpStore.Resolved ∧
  McpStore.isInitialized
    (McpStore.store (McpStore.initialize_resume JSON_parse settings o b).1) = true.
Proof.
  unfold McpStore.initialize_resume.
  by destruct (McpStore.updateServerConfig_result JSON_parse o).
Qed.

Lemma initialize_call_initialized (b : McpStore.Browser) :
  McpStore.isInitialized (McpStore.store b) = true →
  McpStore.initialize_call isBrowser JSON_parse b
  = (b, McpStore.Finished McpStore.Resolved).
Proof. intros Hinit. unfold McpStore.initialize_call. by rewrite Hinit. Qed.

Lemma initialize_call_finished (b b' : McpStore.Browser) (r : McpStore.Settled) :
  McpStore.initialize_call isBrowser JSON_parse b = (b', McpStore.Finished r) →
  r = McpStore.Resolved ∧ McpStore.isInitialized (McpStore.store b') = true.
Proof.
  unfold McpStore.initialize_call.
  destruct (McpStore.isInitialized (McpStore.store b)) eqn:Hinit.
  { intros [= <- <-]. done. }
  destruct isBrowser; [|by intros [= <- <-]].
  destruct (McpStore.localStorage b !! McpStore.MCP_SETTINGS_KEY) as [[|c r']|];
    try by intros [= <- <-].
  destruct (JSON_parse (String c r')) as [v|message]; [|by intros [= <- <-]].
  destruct (get_prop v "mcpConfig") as [config|message]; [done|by intros [= <- <-]].
Qed.

End StoreMore.

(** X10: with a [localStorage] that answers, [initialize] leaves the store
    initialized on every path: on the paths that finish at once and, whatever
    the discovery request brings and whatever state it finds, on the path
    that awaits it.  On a store that is initialized, whichever it is,
    [initialize] changes nothing, sends nothing and resolves; so a call after
    an earlier one has settled is a no-op. *)
Theorem initialize_once (isBrowser : bool) (JSON_parse : string → Completion json)
    (b : McpStore.Browser) :
  (McpStore.isInitialized (McpStore.store b) = true →
   McpStore.initialize_call isBrowser JSON_parse b
   = (b, McpStore.Finished McpStore.Resolved)) ∧
  match McpStore.initialize_call isBrowser JSON_parse b with
  | (b1, McpStore.Finished _) => McpStore.isInitialized (McpStore.store b1) = true
  | (b1, McpStore.Awaiting settings) =>
      ∀ o b2,
        McpStore.isInitialized
          (McpStore.store (McpStore.initialize_resume JSON_parse settings o b2).1)
        = true
  end.
Proof.
  split; [apply initialize_call_initialized|].
  destruct (McpStore.initialize_call isBrowser JSON_parse b) as [b1 [r|settings]] eqn:Hcall.
  - by apply initialize_call_finished in Hcall as [_ Hinit].
  - intros o b2. by destruct (initialize_resume_initialized JSON_parse settings o b2).
Qed.

Lemma initialize_once_witness :
  McpStore.initialize_call true parseOrThrow
    (McpStore.initialize_call true parseOrThrow idleBrowser).1
  = ((McpStore.initialize_call true parseOrThrow idleBrowser).1,
     McpStore.Finished McpStore.Resolved).
Proof.
  exact (proj1 (initialize_once true parseOrThrow
                  (McpStore.initialize_call true parseOrThrow idleBrowser).1)
           eq_refl).
Defined.

(** X11: [initialize] is not guarded while it awaits discovery: a second call
    made before the first has settled reads the record again and sends a
    second, identical discovery request. *)
Theorem initialize_is_not_single_flight (isBrowser : bool)
    (JSON_parse : string → Completion json) (b b1 : McpStore.Browser) (settings : json) :
  McpStore.initialize_call isBrowser JSON_parse b = (b1, McpStore.Awaiting settings) →
  ∃ request,
    McpStore.fetched b1 = McpStore.fetched b ++ [request] ∧
    McpStore.initialize_call isBrowser JSON_parse b1
    = (McpStore.send request b1, McpStore.Awaiting settings) ∧
    McpStore.fetched (McpStore.send request b1)
    = McpStore.fetched b ++ [request; request].
Proof.
  unfold McpStore.initialize_call.
  destruct (McpStore.isInitialized (McpStore.store b)) eqn:Hinit; [done|].
  destruct isBrowser; [|done].
  destruct (McpStore.localStorage b !! McpStore.MCP_SETTINGS_KEY) as [[|c r]|] eqn:Hrec;
    try done.
  destruct (JSON_parse (String c r)) as [v|message] eqn:Hparse; [|done].
  destruct (get_prop v "mcpConfig") as [config|message] eqn:Hprop; [|done].
  intros [= <- <-]. eexists. split; [done|]. cbn.
  rewrite Hinit, Hrec, Hparse, Hprop. split; [done|]. by rewrite <- app_assoc.
Qed.

Lemma initialize_is_not_single_flight_witness :
  ∃ request,
    McpStore.fetched
      (McpStore.initialize_call true parseOrThrow
         (freshBrowser (Json.stringify McpStore.defaultSettings))).1 = [request] ∧
    McpStore.fetched
      (McpStore.initialize_call true parseOrThrow
         (McpStore.initialize_call true parseOrThrow
            (freshBrowser (Json.stringify McpStore.defaultSettings))).1).1
    = [request; request].
Proof.
  assert (McpStore.initialize_call true parseOrThrow
            (freshBrowser (Json.stringify McpStore.defaultSettings))
          = ((McpStore.initialize_call true parseOrThrow
                (freshBrowser (Json.stringify McpStore.defaultSettings))).1,
             McpStore.Awaiting McpStore.defaultSettings)) as Hawait
    by reflexivity.
  destruct (initialize_is_not_single_flight true parseOrThrow _ _ _ Hawait)
    as (request & Hfirst & Hcall & Hboth).
  exists request. split; [exact Hfirst|].
  rewrite Hcall. exact Hboth.
Defined.

(** X12: when [initialize] fails, it records the failure and keeps what it
    had.  A persisted record on which [JSON.parse] throws, or which is
    [null], leaves settings, server tools and the record itself untouched,
    sends no request, and sets an error that starts with the parsing
    message; a failed discovery request is recorded under the same message.
    In both cases the call resolves and the store is initialized. *)
Theorem initialize_failure_keeps_defaults (JSON_parse : string → Completion json) :
  (∀ b c r message,
     McpStore.isInitialized (McpStore.store b) = false →
     McpStore.localStorage b !! McpStore.MCP_SETTINGS_KEY = Some (String c r) →
     JSON_parse (String c r) = Throw message →
     McpStore.initialize_call true JSON_parse b
     = (initializedWithError message b, McpStore.Finished McpStore.Resolved)) ∧
  (∀ b c r,
     McpStore.isInitialized (McpStore.store b) = false →
     McpStore.localStorage b !! McpStore.MCP_SETTINGS_KEY = Some (String c r) →
     JSON_parse (String c r) = Normal JNull →
     ∃ message,
       McpStore.initialize_call true JSON_parse b
       = (initializedWithError message b, McpStore.Finished McpStore.Resolved)) ∧
  (∀ settings o b message,
     McpStore.updateServerConfig_result JSON_parse o = Throw message →
     McpStore.initialize_resume JSON_parse settings o b
     = (initializedWithError message b, McpStore.Resolved)).
Proof.
  split; [|split].
  - intros b c r message Hinit Hrec Hbad. unfold McpStore.initialize_call.
    by rewrite Hinit, Hrec, Hbad.
  - intros b c r Hinit Hrec Hnull. unfold McpStore.initialize_call.
    rewrite Hinit, Hrec, Hnull. by eexists.
  - intros settings o b message Hfail. unfold McpStore.initialize_resume.
    by rewrite Hfail.
Qed.

Lemma initialize_failure_keeps_defaults_witness :
  McpStore.initialize_call true parseOrThrow (freshBrowser "{mcpConfig:")
  = (initializedWithError "Unexpected token in JSON" (freshBrowser "{mcpConfig:"),
     McpStore.Finished McpStore.Resolved) ∧
  ∃ message,
    McpStore.initialize_call true parseOrThrow (freshBrowser "null")
    = (initializedWithError message (freshBrowser "null"),
       McpStore.Finished McpStore.Resolved).
Proof.
  split.
  - exact (proj1 (initialize_failure_keeps_defaults parseOrThrow)
             (freshBrowser "{mcpConfig:") "{"%char "mcpConfig:" _
             eq_refl eq_refl eq_refl).
  - exact (proj1 (proj2 (initialize_failure_keeps_defaults parseOrThrow))
             (freshBrowser "null") "n"%char "ull" eq_refl eq_refl eq_refl).
Defined.

(** X13: the first run.  In a browser, with no record or an empty one,
    [initialize] writes the serialized defaults under the settings key and
    touches nothing else: settings, server tools and error stay, every other
    key of [localStorage] stays, and no request is sent.  Outside a browser
    only the initialized flag changes. *)
Theorem initialize_first_run (JSON_parse : string → Completion json)
    (b : McpStore.Browser) :
  McpStore.isInitialized (McpStore.store b) = false →
  (McpStore.localStorage b !! McpStore.MCP_SETTINGS_KEY = None ∨
   McpStore.localStorage b !! McpStore.MCP_SETTINGS_KEY = Some "" →
   McpStore.initialize_call true JSON_parse b =
   ({| McpStore.store := McpStore.set_isInitialized true (McpStore.store b);
       McpStore.localStorage :=
         <[McpStore.MCP_SETTINGS_KEY :=
             "{" +:+ quoted "maxLLMSteps" +:+ ":5," +:+ quoted "mcpConfig" +:+ ":{" +:+
             quoted "mcpServers" +:+ ":{}}}"]> (McpStore.localStorage b);
       McpStore.fetched := McpStore.fetched b |},
    McpStore.Finished McpStore.Resolved)) ∧
  McpStore.initialize_call false JSON_parse b =
  ({| McpStore.store := McpStore.set_isInitialized true (McpStore.store b);
      McpStore.localStorage := McpStore.localStorage b;
      McpStore.fetched := McpStore.fetched b |},
   McpStore.Finished McpStore.Resolved).
Proof.
  intros Hinit. unfold McpStore.initialize_call. rewrite Hinit. split; [|done].
  by intros [-> | ->].
Qed.

Lemma initialize_first_run_witness :
  McpStore.localStorage (McpStore.initialize_call true parseOrThrow idleBrowser).1
  = {[McpStore.MCP_SETTINGS_KEY :=
        "{" +:+ quoted "maxLLMSteps" +:+ ":5," +:+ quoted "mcpConfig" +:+ ":{" +:+
        quoted "mcpServers" +:+ ":{}}}"]}.
Proof.
  rewrite (proj1 (initialize_first_run parseOrThrow idleBrowser eq_refl)
             (or_introl eq_refl)).
  reflexivity.
Defined.

(** X14: [initialize] does not validate the record.  Any value other than
    [null] that the record parses to is sent for discovery through its
    [mcpConfig] member (no body at all when it has none) and, once discovery
    succeeds, becomes the settings as it is, together with the tools
    discovery returned; the record itself is not rewritten. *)
Theorem initialize_adopts_any_record (JSON_parse : string → Completion json)
    (b : McpStore.Browser) (c : ascii) (r : string) (v : json) (config : value) :
  McpStore.isInitialized (McpStore.store b) = false →
  McpStore.localStorage b !! McpStore.MCP_SETTINGS_KEY = Some (String c r) →
  JSON_parse (String c r) = Normal v →
  get_prop v "mcpConfig" = Normal config →
  McpStore.initialize_call true JSON_parse b =
  (McpStore.send
     {| McpStore.url := "/api/mcp-update-config"; McpStore.fetch_method := "POST";
        McpStore.fetch_body := Json.stringify <$> config |} b,
   McpStore.Awaiting v) ∧
  ∀ o tools b1,
    McpStore.updateServerConfig_result JSON_parse o = Normal tools →
    McpStore.initialize_resume JSON_parse v o b1 =
    ({| McpStore.store :=
          {| McpStore.isInitialized := true; McpStore.settings := v;
             McpStore.serverTools := tools;
             McpStore.error := McpStore.error (McpStore.store b1);
             McpStore.isUpdatingConfig :=
               McpStore.isUpdatingConfig (McpStore.store b1) |};
        McpStore.localStorage := McpStore.localStorage b1;
        McpStore.fetched := McpStore.fetched b1 |},
     McpStore.Resolved).
Proof.
  intros Hinit Hrec Hparse Hprop. split.
  - unfold McpStore.initialize_call. by rewrite Hinit, Hrec, Hparse, Hprop.
  - intros o tools b1 Hok. unfold McpStore.initialize_resume. by rewrite Hok.
Qed.

Lemma initialize_adopts_any_record_witness :
  McpStore.initialize_call true parseOrThrow (freshBrowser "[1,2]") =
  (McpStore.send
     {| McpStore.url := "/api/mcp-update-config"; McpStore.fetch_method := "POST";
        McpStore.fetch_body := None |} (freshBrowser "[1,2]"),
   McpStore.Awaiting (JArr [JNum 1; JNum 2])).
Proof.
  exact (proj1 (initialize_adopts_any_record parseOrThrow (freshBrowser "[1,2]")
                  "["%char "1,2]" (JArr [JNum 1; JNum 2]) None
                  eq_refl eq_refl eq_refl eq_refl)).
Defined.

Section StoreSessions.
Context (isBrowser : bool) (JSON_parse : string → Completion json).

Lemma step_singleFlight (s : McpStore.Session) (e : McpStore.Event) :
  singleFlight s →
  singleFlight (McpStore.step isBrowser JSON_parse s e) ∧
  length (McpStore.outcomes (McpStore.step isBrowser JSON_parse s e)) +
  length (McpStore.inFlight (McpStore.step isBrowser JSON_parse s e))
  = length (McpStore.outcomes s) + length (McpStore.inFlight s) + calls [e].
Proof.
  unfold singleFlight. destruct s as [b fl out]. cbn [McpStore.inFlight McpStore.browser
    McpStore.outcomes]. destruct fl as [|k [|k' fl]]; intros Hflag; [| |done].
  - destruct e as [new|o]; cbn; [|split; [done|lia]].
    unfold McpStore.updateSettings_call. rewrite Hflag. cbn. split; [done|lia].
  - destruct e as [new|o]; cbn.
    + unfold McpStore.updateSettings_call. rewrite Hflag. cbn.
      rewrite length_app. cbn. split; [done|lia].
    + unfold McpStore.updateSettings_resume.
      destruct (McpStore.updateServerConfig_result JSON_parse o); cbn;
        rewrite length_app; cbn; (split; [done|lia]).
Qed.

Lemma step_call_idle (s : McpStore.Session) (newSettings : McpStore.MCPSettings) :
  McpStore.isUpdatingConfig (McpStore.store (McpStore.browser s)) = false →
  McpStore.inFlight
    (McpStore.step isBrowser JSON_parse s (McpStore.CallUpdateSettings newSettings))
  = McpStore.inFlight s ++ [newSettings].
Proof. intros Hidle. cbn. unfold McpStore.updateSettings_call. by rewrite Hidle. Qed.

Lemma calls_app (xs ys : list McpStore.Event) : calls (xs ++ ys) = calls xs + calls ys.
Proof. induction xs as [|[new|o] xs IH]; cbn; lia. Qed.

Lemma run_singleFlight (events : list McpStore.Event) (s : McpStore.Session) :
  singleFlight s →
  singleFlight (McpStore.run isBrowser JSON_parse s events) ∧
  length (McpStore.outcomes (McpStore.run isBrowser JSON_parse s events)) +
  length (McpStore.inFlight (McpStore.run isBrowser JSON_parse s events))
  = length (McpStore.outcomes s) + length (McpStore.inFlight s) + calls events.
Proof.
  revert s. induction events as [|e events IH]; intros s Hs; [cbn; split; [done|lia]|].
  cbn [McpStore.run foldl]. destruct (step_singleFlight s e Hs) as [Hs' Hcount].
  destruct (IH _ Hs') as [Hinv Hlen]. split; [done|].
  unfold McpStore.run in Hlen. rewrite Hlen, Hcount.
  change (e :: events) with ([e] ++ events). rewrite calls_app. lia.
Qed.

End StoreSessions.

(** X15: single flight as an invariant of sessions.  From a state where at
    most one update is in flight and the flag says so, any sequence of calls
    and settled discovery requests leads to such a state again; no call is
    lost, each one has settled or is the one in flight; and once the update
    in flight has settled, the next call is taken up. *)
Theorem single_flight_is_invariant (isBrowser : bool)
    (JSON_parse : string → Completion json) (s : McpStore.Session)
    (events : list McpStore.Event) :
  singleFlight s →
  singleFlight (McpStore.run isBrowser JSON_parse s events) ∧
  length (McpStore.inFlight (McpStore.run isBrowser JSON_parse s events)) ≤ 1 ∧
  length (McpStore.outcomes (McpStore.run isBrowser JSON_parse s events)) +
  length (McpStore.inFlight (McpStore.run isBrowser JSON_parse s events))
  = length (McpStore.outcomes s) + length (McpStore.inFlight s) + calls events ∧
  ∀ o newSettings,
    McpStore.inFlight
      (McpStore.run isBrowser JSON_parse s
         (events ++ [McpStore.DiscoverySettles o;
                     McpStore.CallUpdateSettings newSettings]))
    = [newSettings].
Proof.
  intros Hs. destruct (run_singleFlight isBrowser JSON_parse events s Hs) as [Hinv Hlen].
  split; [done|]. split; [|split; [done|]].
  - unfold singleFlight in Hinv.
    by destruct (McpStore.inFlight _) as [|k [|k' fl]]; cbn; try lia.
  - intros o newSettings. unfold McpStore.run in *. rewrite foldl_app.
    set (s1 := foldl _ s events) in *. cbn [foldl].
    destruct (step_singleFlight isBrowser JSON_parse s1 (McpStore.DiscoverySettles o) Hinv)
      as [Hs2 _].
    set (s2 := McpStore.step _ _ s1 _) in *.
    assert (McpStore.inFlight s2 = []) as Hidle.
    { subst s2. unfold singleFlight in Hinv. cbn.
      destruct (McpStore.inFlight s1) as [|k [|k' fl]] eqn:Hfl; [done| |done].
      by destruct (McpStore.updateSettings_resume _ _ k o _). }
    unfold singleFlight in Hs2. rewrite Hidle in Hs2.
    by rewrite (step_call_idle isBrowser JSON_parse s2 newSettings Hs2), Hidle.
Qed.

Lemma single_flight_is_invariant_witness :
  McpStore.inFlight
    (McpStore.run true parseOrThrow (sessionOf idleBrowser)
       ([McpStore.CallUpdateSettings sampleSettings;
         McpStore.CallUpdateSettings sampleSettings] ++
        [McpStore.DiscoverySettles (McpStore.FetchFailed "Failed to fetch");
         McpStore.CallUpdateSettings sampleSettings]))
  = [sampleSettings].
Proof.
  exact (proj2 (proj2 (proj2
           (single_flight_is_invariant true parseOrThrow (sessionOf idleBrowser)
              [McpStore.CallUpdateSettings sampleSettings;
               McpStore.CallUpdateSettings sampleSettings] eq_refl)))
           (McpStore.FetchFailed "Failed to fetch") sampleSettings).
Defined.



(** X17: [checkServersAvailabilities] sends one GET without a body and is
    not held back by an update in progress.  When its request settles it
    can change the server tools and nothing else; it resolves exactly when
    the response is ok and its body parses, and then the tools are what the
    body parsed to; otherwise it rejects and the browser state is as it was. *)
Theorem availability_check_touches_tools_only (JSON_parse : string → Completion json)
    (o : McpStore.FetchOutcome) (b : McpStore.Browser) :
  McpStore.checkServersAvailabilities_call b =
  ({| McpStore.store := McpStore.store b;
      McpStore.localStorage := McpStore.localStorage b;
      McpStore.fetched :=
        McpStore.fetched b ++
        [{| McpStore.url := "/api/mcp-check"; McpStore.fetch_method := "GET";
            McpStore.fetch_body := None |}] |},
   McpStore.Awaiting ()) ∧
  let after := (McpStore.checkServersAvailabilities_resume JSON_parse o b).1 in
  let settled := (McpStore.checkServersAvailabilities_resume JSON_parse o b).2 in
  McpStore.localStorage after = McpStore.localStorage b ∧
  McpStore.fetched after = McpStore.fetched b ∧
  McpStore.settings (McpStore.store after) = McpStore.settings (McpStore.store b) ∧
  McpStore.error (McpStore.store after) = McpStore.error (McpStore.store b) ∧
  McpStore.isInitialized (McpStore.store after)
  = McpStore.isInitialized (McpStore.store b) ∧
  McpStore.isUpdatingConfig (McpStore.store after)
  = McpStore.isUpdatingConfig (McpStore.store b) ∧
  (settled = McpStore.Resolved ↔
   ∃ status statusText text tools,
     o = McpStore.FetchResponse true status statusText text ∧
     JSON_parse text = Normal tools ∧
     McpStore.serverTools (McpStore.store after) = tools) ∧
  (settled ≠ McpStore.Resolved → after = b).
Proof.
  split; [done|]. cbn zeta. unfold McpStore.checkServersAvailabilities_resume.
  destruct o as [message|[] status statusText text].
  - repeat split; try done. by intros (? & ? & ? & ? & ? & _).
  - destruct (JSON_parse text) as [tools|message] eqn:Hparse.
    + repeat split; try done. intros _. by eexists _, _, _, _.
    + repeat split; try done. intros (? & ? & ? & ? & [= <- <- <-] & Hp & _).
      by rewrite Hparse in Hp.
  - repeat split; try done. by intros (? & ? & ? & ? & ? & _).
Qed.

(** ** Platform detection and the default server configuration *)

Lemma includes_unfold (s sub : string) :
  includes s sub =
  if startsWith s sub then true
  else match s with
       | EmptyString => false
       | String _ r => includes r sub
       end.
Proof. by destruct s. Qed.

Lemma includes_contains (s sub : string) : includes s sub = true ↔ contains s sub.
Proof.
  unfold contains. split.
  - induction s as [|c s IH]; rewrite includes_unfold;
      destruct (startsWith _ sub) eqn:Hst; try done.
    + apply startsWith_spec in Hst as [rest ->]. by exists "", rest.
    + apply startsWith_spec in Hst as [rest ->]. by exists "", rest.
    + intros (pre & post & ->)%IH. by exists (String c pre), post.
  - intros (pre & post & ->). induction pre as [|c pre IH].
    + rewrite includes_unfold.
      assert (startsWith ("" +:+ sub +:+ post) sub = true) as ->; [|done].
      apply startsWith_spec. by exists post.
    + rewrite app_cons, includes_unfold. by destruct (startsWith _ sub).
Qed.

Lemma includes_not_contains (s sub : string) :
  includes s sub = false ↔ ¬ contains s sub.
Proof. rewrite <- includes_contains. by destruct (includes s sub). Qed.

(** X18: platform detection reads [navigator.platform] in a fixed order.
    The platform is macos exactly when the string contains [Mac] and not
    [Win]; it is linux exactly when the string contains [Linux] and neither
    [Win] nor [Mac]; in every other case, an undefined or empty string and
    an unknown platform included, it is windows. *)
Theorem platform_detection (navigator_platform : option string) :
  (McpStore.getPlatform navigator_platform = McpStore.macos ↔
   ∃ p, navigator_platform = Some p ∧ contains p "Mac" ∧ ¬ contains p "Win") ∧
  (McpStore.getPlatform navigator_platform = McpStore.linux ↔
   ∃ p, navigator_platform = Some p ∧ contains p "Linux" ∧
        ¬ contains p "Win" ∧ ¬ contains p "Mac") ∧
  (McpStore.getPlatform navigator_platform = McpStore.windows ↔
   ¬ ∃ p, navigator_platform = Some p ∧ ¬ contains p "Win" ∧
          (contains p "Mac" ∨ contains p "Linux")).
Proof.
  destruct navigator_platform as [[|c r]|]; cbn [McpStore.getPlatform].
  - repeat split; try done.
    + intros (p & [= <-] & Hc & _). apply includes_contains in Hc. done.
    + intros (p & [= <-] & Hc & _). apply includes_contains in Hc. done.
    + intros _ (p & [= <-] & _ & [Hc|Hc]); by apply includes_contains in Hc.
  - assert (∀ Q : string → Prop,
              (∃ p, Some (String c r) = Some p ∧ Q p) ↔ Q (String c r)) as Hex.
    { intros Q. split; [by intros (p & [= <-] & HQ) | eauto]. }
    rewrite (Hex (λ p, contains p "Mac" ∧ ¬ contains p "Win")),
      (Hex (λ p, contains p "Linux" ∧ ¬ contains p "Win" ∧ ¬ contains p "Mac")),
      (Hex (λ p, ¬ contains p "Win" ∧ (contains p "Mac" ∨ contains p "Linux"))).
    destruct (includes (String c r) "Win") eqn:Hw;
      [apply includes_contains in Hw | apply includes_not_contains in Hw];
      (destruct (includes (String c r) "Mac") eqn:Hm;
       [apply includes_contains in Hm | apply includes_not_contains in Hm]);
      (destruct (includes (String c r) "Linux") eqn:Hl;
       [apply includes_contains in Hl | apply includes_not_contains in Hl]);
      repeat split; intros; first [discriminate | tauto | done | exfalso; tauto].
  - repeat split; try done; try (by intros (p & ? & _)).
    by intros _ (p & ? & _).
Qed.

(** X19: the default server configuration has the two servers [github] and
    [github-cli]; both run the executable of the platform over stdio with an
    empty environment.  On windows their working directory is the
    installation directory, the one the gateway is configured with; on linux
    and macos the path has no [\bin\gh.exe] to remove, so the working
    directory is the executable file itself. *)
Theorem default_servers (platform : McpStore.Platform) :
  dom (McpStore.getDefaultGitHubCLIConfig platform) = {["github"; "github-cli"]} ∧
  ∀ name server,
    McpStore.getDefaultGitHubCLIConfig platform !! name = Some server →
    McpStore.type server = "stdio" ∧
    McpStore.command server = McpStore.GITHUB_CLI_PATHS platform ∧
    McpStore.env server = ∅ ∧
    (platform = McpStore.windows →
     McpStore.cwd server = Exec.cwd (Exec.GITHUB_CLI_CONFIG Exec.windows)) ∧
    (platform ≠ McpStore.windows → McpStore.cwd server = McpStore.command server).
Proof.
  split.
  - unfold McpStore.getDefaultGitHubCLIConfig. rewrite !dom_insert_L. set_solver.
  - intros name server. unfold McpStore.getDefaultGitHubCLIConfig.
    rewrite lookup_insert. case_decide as Hn.
    + intros [= <-]. by destruct platform.
    + rewrite lookup_insert. case_decide as Hn'; [|by rewrite lookup_empty].
      intros [= <-]. by destruct platform.
Qed.

Lemma default_servers_witness :
  ∃ server,
    McpStore.getDefaultGitHubCLIConfig (McpStore.getPlatform (Some "Linux x86_64"))
    !! "github" = Some server ∧
    McpStore.cwd server = "/usr/local/bin/gh".
Proof.
  eexists. split; [reflexivity|].
  refine (proj2 (proj2 (proj2 (proj2
            (proj2 (default_servers McpStore.linux) "github" _ _)))) _);
    [reflexivity | discriminate].
Defined.

(** ** The component against the routes *)

Section ComponentRuns.
Context `{Host} (JSON_parse_client : string → Completion json).

Lemma execReply_plain command args (s : Sys) :
  Exec.isAllowed command = true →
  command ≠ "version" → command ≠ "auth status" →
  execReply (GitHubCLIConfig.execRequest command args) s =
  Exec.json_reply
    (resultOf command args
       (execSync (gatewayInvocation command args ∅ None) (world s)).1).
Proof.
  intros Hok Hv Ha. unfold execReply, GitHubCLIConfig.execRequest.
  change {| Exec.method := "POST"; Exec.request_json := Normal _ |}
    with (post command (Some args) None None).
  rewrite (action_run _ _ _ _ _ Hok). unfold gatewayRun. cbn [default].
  destruct (decide (command = "version")); [done|].
  by destruct (decide (command = "auth status")).
Qed.

Lemma execReply_version args (s : Sys) :
  execReply (GitHubCLIConfig.execRequest "version" args) s =
  Exec.json_reply
    (withVersion
       (resultOf "version" args
          (execSync (gatewayInvocation "version" args ∅ None) (world s)).1)).
Proof.
  unfold execReply, GitHubCLIConfig.execRequest.
  change {| Exec.method := "POST"; Exec.request_json := Normal _ |}
    with (post "version" (Some args) None None).
  by rewrite (action_run "version" _ _ _ _ eq_refl).
Qed.

End ComponentRuns.

(** X20: the component's Check Status button against the gateway.  The
    handler sends the verb [auth] with the argument [status], for which the
    gateway never fetches an identity.  So when the check succeeds the
    component marks the status authenticated and sets its identity to
    undefined, whatever identity it held; when the check fails it marks the
    status unauthenticated, keeps the identity, and shows the output of the
    process or, if that is empty, the error.  Loading ends either way. *)
Theorem auth_check_drops_identity `{Host}
    (JSON_parse_client : string → Completion json) (s : Sys)
    (ui : GitHubCLIConfig.State) :
  let request := (GitHubCLIConfig.checkAuthStatus_call ui).2 in
  let ui' := GitHubCLIConfig.checkAuthStatus_settle JSON_parse_client
               (execReceived request s) (GitHubCLIConfig.checkAuthStatus_call ui).1 in
  arrivesIntact JSON_parse_client (execBodyValue (Exec.body (execReply request s))) →
  GitHubCLIConfig.isLoading ui' = false ∧
  match (execSync (gatewayInvocation "auth" ["status"] ∅ None) (world s)).1 with
  | Returned out =>
      GitHubCLIConfig.status ui' =
      {| GitHubCLIConfig.isInstalled :=
           GitHubCLIConfig.isInstalled (GitHubCLIConfig.status ui);
         GitHubCLIConfig.isAuthenticated := Some (JBool true);
         GitHubCLIConfig.version := GitHubCLIConfig.version (GitHubCLIConfig.status ui);
         GitHubCLIConfig.user := None;
         GitHubCLIConfig.error := GitHubCLIConfig.error (GitHubCLIConfig.status ui) |} ∧
      GitHubCLIConfig.testOutput ui' = Some (JStr (trim out))
  | Thrown e =>
      GitHubCLIConfig.status ui' =
      {| GitHubCLIConfig.isInstalled :=
           GitHubCLIConfig.isInstalled (GitHubCLIConfig.status ui);
         GitHubCLIConfig.isAuthenticated := Some (JBool false);
         GitHubCLIConfig.version := GitHubCLIConfig.version (GitHubCLIConfig.status ui);
         GitHubCLIConfig.user := GitHubCLIConfig.user (GitHubCLIConfig.status ui);
         GitHubCLIConfig.error := GitHubCLIConfig.error (GitHubCLIConfig.status ui) |} ∧
      GitHubCLIConfig.testOutput ui' =
      Some (JStr (match or_string (err_stdout e) "" with
                  | EmptyString => or_string (err_message e) "Command execution failed"
                  | out => out
                  end))
  end.
Proof.
  intros request ui'. subst request ui'. unfold arrivesIntact, execReceived.
  cbn [GitHubCLIConfig.checkAuthStatus_call snd].
  rewrite (execReply_plain "auth" ["status"] s eq_refl) by done.
  unfold GitHubCLIConfig.checkAuthStatus_settle, received, GitHubCLIConfig.readData.
  cbn [Exec.json_reply Exec.body Exec.status].
  intros ->. split; [done|].
  destruct (execSync _ (world s)).1 as [out|e]; cbn; [done|].
  by destruct (or_string (err_stdout e) "").
Qed.

Lemma auth_check_drops_identity_witness :
  GitHubCLIConfig.user
    (GitHubCLIConfig.status
       (GitHubCLIConfig.checkAuthStatus_settle parseOrThrow
          (execReceived (H := scriptedHost)
             (GitHubCLIConfig.execRequest "auth" ["status"])
             (scriptedSys [Returned "Logged in to github.com"; Returned aliceJson]))
          (GitHubCLIConfig.checkAuthStatus_call signedIn).1)) = None.
Proof.
  pose proof (auth_check_drops_identity (H := scriptedHost) parseOrThrow
                (scriptedSys [Returned "Logged in to github.com"; Returned aliceJson])
                signedIn) as Hcheck.
  cbv zeta in Hcheck.
  assert (arrivesIntact parseOrThrow
            (execBodyValue
               (Exec.body
                  (execReply (H := scriptedHost)
                     (GitHubCLIConfig.checkAuthStatus_call signedIn).2
                     (scriptedSys [Returned "Logged in to github.com";
                                   Returned aliceJson]))))) as Hintact
    by (vm_compute; reflexivity).
  destruct (Hcheck Hintact) as [_ [Hstatus _]].
  exact (f_equal GitHubCLIConfig.user Hstatus).
Defined.

(** X21: the component's Test Installation button against the gateway.  It
    sends the verb [version] without arguments.  When the process returns
    output in the ASCII range, the status is marked installed, its version is
    capture group 1 of the leftmost match of [gh version (\S+)] in the
    trimmed output, or undefined when the pattern occurs nowhere, and an
    error left by an earlier failure stays; the output shown is the trimmed
    output.  When the process fails, the status is marked not installed, the
    version shown before stays, and the error is both stored and shown.
    Authentication and identity are untouched, and loading ends either
    way. *)
Theorem version_test_outcome `{Host}
    (JSON_parse_client : string → Completion json) (s : Sys)
    (ui : GitHubCLIConfig.State) :
  let request := (GitHubCLIConfig.testGitHubCLI_call ui).2 in
  let ui' := GitHubCLIConfig.testGitHubCLI_settle JSON_parse_client
               (execReceived request s) (GitHubCLIConfig.testGitHubCLI_call ui).1 in
  arrivesIntact JSON_parse_client (execBodyValue (Exec.body (execReply request s))) →
  GitHubCLIConfig.isLoading ui' = false ∧
  match (execSync (gatewayInvocation "version" [] ∅ None) (world s)).1 with
  | Returned out =>
      isAscii out = true →
      ∃ token : option string,
        (∀ tok, token = Some tok ↔ regexMatch (trim out) tok) ∧
        (token = None ↔ ¬ ∃ pre tok post, occursAt (trim out) pre tok post) ∧
        GitHubCLIConfig.status ui' =
        {| GitHubCLIConfig.isInstalled := Some (JBool true);
           GitHubCLIConfig.isAuthenticated :=
             GitHubCLIConfig.isAuthenticated (GitHubCLIConfig.status ui);
           GitHubCLIConfig.version := JStr <$> token;
           GitHubCLIConfig.user := GitHubCLIConfig.user (GitHubCLIConfig.status ui);
           GitHubCLIConfig.error :=
             GitHubCLIConfig.error (GitHubCLIConfig.status ui) |} ∧
        GitHubCLIConfig.testOutput ui' = Some (JStr (trim out))
  | Thrown e =>
      let message := or_string (err_message e) "Command execution failed" in
      GitHubCLIConfig.status ui' =
      {| GitHubCLIConfig.isInstalled := Some (JBool false);
         GitHubCLIConfig.isAuthenticated :=
           GitHubCLIConfig.isAuthenticated (GitHubCLIConfig.status ui);
         GitHubCLIConfig.version := GitHubCLIConfig.version (GitHubCLIConfig.status ui);
         GitHubCLIConfig.user := GitHubCLIConfig.user (GitHubCLIConfig.status ui);
         GitHubCLIConfig.error := Some (JStr message) |} ∧
      GitHubCLIConfig.testOutput ui' = Some (JStr message)
  end.
Proof.
  intros request ui'. subst request ui'. unfold arrivesIntact, execReceived.
  cbn [GitHubCLIConfig.testGitHubCLI_call fst snd].
  rewrite (execReply_version [] s).
  unfold GitHubCLIConfig.testGitHubCLI_settle, received, GitHubCLIConfig.readData.
  cbn [Exec.json_reply Exec.body Exec.status].
  intros ->. split; [done|].
  destruct (execSync _ (world s)).1 as [out|e]; cbn.
  - intros _. exists (Exec.versionMatch (trim out)).
    split; [intros tok; apply versionMatch_iff|].
    split; [apply versionMatch_None|].
    unfold withVersion; cbn. by destruct (Exec.versionMatch (trim out)).
  - by destruct (err_message e) as [[|c r]|].
Qed.

Lemma version_test_outcome_witness :
  GitHubCLIConfig.testOutput
    (GitHubCLIConfig.testGitHubCLI_settle parseOrThrow
       (execReceived (H := scriptedHost) (GitHubCLIConfig.execRequest "version" [])
          (scriptedSys [Returned "gh version 2.41.0 (2024-01-01)
"]))
       (GitHubCLIConfig.testGitHubCLI_call signedIn).1)
  = Some (JStr "gh version 2.41.0 (2024-01-01)") ∧
  GitHubCLIConfig.version
    (GitHubCLIConfig.status
       (GitHubCLIConfig.testGitHubCLI_settle parseOrThrow
          (execReceived (H := scriptedHost) (GitHubCLIConfig.execRequest "version" [])
             (scriptedSys [Returned "gh version 2.41.0 (2024-01-01)
"]))
          (GitHubCLIConfig.testGitHubCLI_call signedIn).1))
  = Some (JStr "2.41.0").
Proof.
  pose proof (version_test_outcome (H := scriptedHost) parseOrThrow
                (scriptedSys [Returned "gh version 2.41.0 (2024-01-01)
"]) signedIn) as Htest.
  cbv zeta in Htest.
  assert (arrivesIntact parseOrThrow
            (execBodyValue
               (Exec.body
                  (execReply (H := scriptedHost)
                     (GitHubCLIConfig.testGitHubCLI_call signedIn).2
                     (scriptedSys [Returned "gh version 2.41.0 (2024-01-01)
"]))))) as Hintact
    by (vm_compute; reflexivity).
  destruct (Htest Hintact) as [_ Hreturned].
  destruct (Hreturned eq_refl) as (token & Htoken & _ & Hstatus & Houtput).
  split; [exact Houtput|].
  assert (token = Some "2.41.0") as Heq
    by (apply Htoken, versionMatch_iff; reflexivity).
  subst token. exact (f_equal GitHubCLIConfig.version Hstatus).
Defined.

(** X22: the component's status check against the status route.  When the
    reply of the route arrives intact, the status shown is the reply member
    for member (absent members stay undefined, and the identity is shown as
    it went on the wire), loading ends, and nothing else of the component
    changes.  When the request itself fails, or the response is not ok, or
    its body cannot be read, the component shows not installed, not
    authenticated, and an error. *)
Theorem status_check_mirrors_route `{Host}
    (JSON_parse_client : string → Completion json) (s : Sys)
    (ui : GitHubCLIConfig.State) (o : McpStore.FetchOutcome) :
  let started := (GitHubCLIConfig.checkGitHubCLIStatus_call ui).1 in
  let settled := GitHubCLIConfig.checkGitHubCLIStatus_settle JSON_parse_client in
  let reply := (Status.loader s).1 in
  (arrivesIntact JSON_parse_client (statusBodyValue reply) →
   settled (statusReceived s) started =
   GitHubCLIConfig.setIsLoading false
     (GitHubCLIConfig.setStatus
     (λ _, {| GitHubCLIConfig.isInstalled := Some (JBool (Status.isInstalled reply));
              GitHubCLIConfig.isAuthenticated :=
                Some (JBool (Status.isAuthenticated reply));
              GitHubCLIConfig.version := JStr <$> Status.version reply;
              GitHubCLIConfig.user := statusUserValue <$> Status.user reply;
              GitHubCLIConfig.error := JStr <$> Status.error reply |}) ui)) ∧
  ((match o with
    | McpStore.FetchFailed _ => True
    | McpStore.FetchResponse ok _ _ text =>
        ok = false ∨ (∃ message, JSON_parse_client text = Throw message)
        ∨ JSON_parse_client text = Normal JNull
    end) →
   ∃ message,
     settled o started =
     GitHubCLIConfig.setIsLoading false
       (GitHubCLIConfig.setStatus (λ _, GitHubCLIConfig.failedStatus message) ui)).
Proof.
  intros started settled reply. subst started settled. split.
  - unfold arrivesIntact, statusReceived, received.
    unfold GitHubCLIConfig.checkGitHubCLIStatus_settle, GitHubCLIConfig.readData.
    fold reply. intros ->.
    destruct reply as [installed authenticated [v|] [u|] [e|]], ui; reflexivity.
  - unfold GitHubCLIConfig.checkGitHubCLIStatus_settle, GitHubCLIConfig.readData.
    destruct o as [message|ok code codeText text]; [by exists message|].
    intros [->|[[message Hthrow]|Hnull]].
    + by eexists.
    + rewrite Hthrow. destruct ok; by eexists.
    + rewrite Hnull. destruct ok; by eexists.
Qed.

Lemma status_check_mirrors_route_witness :
  GitHubCLIConfig.status
    (GitHubCLIConfig.checkGitHubCLIStatus_settle parseOrThrow
       (statusReceived (H := scriptedHost)
          (scriptedSys [Returned "gh version 2.40.0"; Returned "Logged in";
                        Returned aliceJson]))
       (GitHubCLIConfig.checkGitHubCLIStatus_call
          (GitHubCLIConfig.initialState None)).1) =
  {| GitHubCLIConfig.isInstalled := Some (JBool true);
     GitHubCLIConfig.isAuthenticated := Some (JBool true);
     GitHubCLIConfig.version := Some (JStr "gh version 2.40.0");
     GitHubCLIConfig.user :=
       Some (JObj [("login", JStr "alice"); ("name", JStr "Alice A")]);
     GitHubCLIConfig.error := None |}.
Proof.
  pose proof (status_check_mirrors_route (H := scriptedHost) parseOrThrow
                (scriptedSys [Returned "gh version 2.40.0"; Returned "Logged in";
                              Returned aliceJson])
                (GitHubCLIConfig.initialState None)
                (McpStore.FetchFailed "Failed to fetch")) as [Hmirror _].
  assert (arrivesIntact parseOrThrow
            (statusBodyValue
               (Status.loader (H := scriptedHost)
                  (scriptedSys [Returned "gh version 2.40.0"; Returned "Logged in";
                                Returned aliceJson])).1)) as Hintact
    by (vm_compute; reflexivity).
  exact (f_equal GitHubCLIConfig.status (Hmirror Hintact)).
Defined.
